(** * pysmartnode: component registry, network-init drain and discovery messages

    A shallow embedding of
    - [pysmartnode/utils/component/__init__.py] (class [ComponentBase]) and
    - [pysmartnode/components/sensors/pms5003.py] (the friendly-name handling of
      the [PMS5003] constructor),
    together with the properties the specification states about them.

    Python objects live in a heap indexed by allocation order; the module
    globals [_components] and [_init_queue_start] are fields of the system
    state; coroutines are cut at their [await]s into atomic sections, which the
    cooperative scheduler may interleave in any order. *)

From Stdlib Require Import Ascii String.
From stdpp Require Import base option list numbers strings pretty sorting.

Local Open Scope string_scope.
Local Open Scope list_scope.

(** ** Python values reaching the modelled code *)

(** Object identity: the position of the object in the heap. *)
Abbreviation oid := nat.

#[warnings="-register-all"]
Inductive PyVal :=
| VNone
| VBool (b : bool)
| VInt (z : Z)
| VStr (s : string)
| VList (l : list PyVal)
| VObj (o : oid).      (* an instance of ComponentBase (or of a subclass) *)

(** ** [str.format] on the templates used by the sources

    The templates only use the replacement field [{!s}] and the escapes
    [{{] and [}}].  Arguments are consumed from left to right; too few
    arguments raise [IndexError], a lone brace raises [ValueError] (both
    [None] here); arguments left over are ignored, as in Python. *)
Fixpoint format (t : string) (args : list string) : option string :=
  match t with
  | EmptyString => Some EmptyString
  | String c r =>
      if Ascii.eqb c "{"%char then
        match r with
        | String c1 r1 =>
            if Ascii.eqb c1 "{"%char then String "{"%char <$> format r1 args
            else if Ascii.eqb c1 "!"%char then
              match r1 with
              | String c2 (String c3 r3) =>
                  if Ascii.eqb c2 "s"%char && Ascii.eqb c3 "}"%char then
                    match args with
                    | a :: args' => String.app a <$> format r3 args'
                    | [] => None
                    end
                  else None
              | _ => None
              end
            else None
        | EmptyString => None
        end
      else if Ascii.eqb c "}"%char then
        match r with
        | String c1 r1 => if Ascii.eqb c1 "}"%char then String "}"%char <$> format r1 args else None
        | EmptyString => None
        end
      else String c <$> format r args
  end.

(** ** The friendly names of the PMS5003 sensor (pms5003.py) *)

Module PMS5003.

Definition TYPES : list string :=
  ["pm10_standard"; "pm25_standard"; "pm100_standard"; "pm10_env"; "pm25_env";
   "pm100_env"; "particles_03um"; "particles_05um"; "particles_10um";
   "particles_25um"; "particles_50um"; "particles_100um"].

(** The micro sign of the source, in UTF-8. *)
Definition micro : string :=
  String (ascii_of_nat 194) (String (ascii_of_nat 181) EmptyString).

Definition UNITS : list string :=
  [micro +:+ "g/m3"; micro +:+ "g/m3"; micro +:+ "g/m3"; micro +:+ "g/m3"; micro +:+ "g/m3";
   micro +:+ "g/m3"; "1/0.1L"; "1/0.1L"; "1/0.1L";
   "1/0.1L"; "1/0.1L"; "1/0.1L"].

Definition dq : string := String (ascii_of_nat 34) EmptyString.

Definition _DISCOVERY_PM : string :=
  dq +:+ "unit_of_meas" +:+ dq +:+ ":" +:+ dq +:+ "{!s}" +:+ dq +:+ ","
     +:+ dq +:+ "val_tpl" +:+ dq +:+ ":" +:+ dq +:+ "{{{{ value_json.{!s} }}}}" +:+ dq +:+ ",".

(** [str(type(v))] *)
Definition type_name (v : PyVal) : string :=
  match v with
  | VNone => "<class 'NoneType'>"
  | VBool _ => "<class 'bool'>"
  | VInt _ => "<class 'int'>"
  | VStr _ => "<class 'str'>"
  | VList _ => "<class 'list'>"
  | VObj _ => "<class 'ComponentBase'>"
  end.

(** [str(n)] for a length. *)
Definition str_nat (n : nat) : string := pretty n.

(** [TYPES.index(tp)]: the first position of [tp], [ValueError] if absent. *)
Fixpoint index (l : list string) (tp : string) : option nat :=
  match l with
  | [] => None
  | x :: r => if String.eqb x tp then Some 0 else S <$> index r tp
  end.

(** One call of [self._addSensorType(tp, 0, 0, value_template, unit,
    friendly_name, None, discovery_type)]. *)
Record SensorType := {
  sensor_type : string;
  value_template : string;
  unit_of_meas : string;
  friendly_name : PyVal;
  discovery_type : string;
}.

Section Init.

(** [VALUE_TEMPLATE_JSON.format(tp)], of pysmartnode.utils.component.sensor. *)
Variable VALUE_TEMPLATE_JSON_format : string -> string.

(** Lines 77 to 86: the check of the argument.  Returns the warnings
    given to [_log.warn] and the value [friendly_name] holds afterwards. *)
Definition check_friendly_name (friendly_name : PyVal) : list string * PyVal :=
  (* type(friendly_name) is not None: a type object is never None *)
  match friendly_name with
  | VList l =>
      if negb (Nat.eqb (List.length l) 12)
      then (["Length of friendly name is wrong, expected 12 got " +:+ str_nat (List.length l)],
            VNone)
      else ([], friendly_name)
  | v => (["Friendly name got unsupported type " +:+ type_name v +:+ ", expect list"], VNone)
  end.

(** The body of [for tp in TYPES], one type. *)
Definition add_type (friendly_name : PyVal) (tp : string) : option SensorType :=
  ind ← index TYPES tp;
  unit ← UNITS !! ind;
  fn ← match friendly_name with
        | VNone => Some (VStr tp)
        | VList l => l !! ind
        | _ => None                (* TypeError: not subscriptable *)
        end;
  disc ← format _DISCOVERY_PM [unit; tp];
  Some {| sensor_type := tp; value_template := VALUE_TEMPLATE_JSON_format tp;
          unit_of_meas := unit; friendly_name := fn; discovery_type := disc |}.

(** Lines 77 to 91 of [PMS5003.__init__]: the warnings logged and the
    sensor types added; [None] when an exception escapes. *)
Definition init_sensor_types (friendly_name : PyVal)
  : list string * option (list SensorType) :=
  let '(warnings, friendly_name) := check_friendly_name friendly_name in
  (warnings, mapM (add_type friendly_name) TYPES).

End Init.

End PMS5003.

(** ** The component module (utils/component/__init__.py) *)

(** Calls to the collaborators (bus, logger, scheduler), in the order they
    are made.  [ObsRegister] and [ObsUnlink] are ghost marks of the registry
    being changed. *)
Inductive Publish :=
| mkPublish (topic msg : string) (qos : Z) (retain : bool).   (* _mqtt.publish *)

Inductive Obs :=
| ObsRegister (c : oid)                          (* ComponentBase.__init__ ran for c *)
| ObsCreateTask                                  (* asyncio.create_task(__initNetworkProcess()) *)
| ObsInitNetwork (c : oid)                       (* c._init_network() entered *)
| ObsAsyncLog (level : string) (msg : list string)   (* config._log.asyncLog *)
| ObsLogError (msg : string)                     (* config._log.error *)
| ObsUnsubscribe (c : oid)                       (* _mqtt.unsubscribe(None, c) *)
| ObsDiscovery (c : oid) (register : bool)       (* c._discovery(register) entered *)
| ObsPublish (p : Publish)                       (* a publish awaited by _discovery *)
| ObsUnlink (c : oid)                            (* c taken out of the list *)
| ObsReturn (v : PyVal).                         (* removeComponent returned v *)

(** An instance of [ComponentBase].  [_discovery] is the method the object is
    bound to: subclasses override it; it is given by the publishes it awaits. *)
Record Component := {
  _next_component : option oid;
  COMPONENT_NAME : string;
  VERSION : string;
  _count : Z;
  __discover : bool;
  _discovery : bool -> list Publish;
}.

Definition set_next (o : Component) (n : option oid) : Component :=
  {| _next_component := n; COMPONENT_NAME := COMPONENT_NAME o; VERSION := VERSION o;
     _count := _count o; __discover := __discover o; _discovery := _discovery o |}.

(** [ComponentBase._discovery]: [pass]. *)
Definition ComponentBase_discovery (register : bool) : list Publish := [].

(** Where a suspended [__initNetworkProcess] task stands. *)
Inductive DrainPC :=
| DrainCreated                 (* created by create_task, body not entered yet *)
| DrainAwaitInit (c : oid).    (* in [await c._init_network()] *)

(** Where a suspended [removeComponent] coroutine stands. *)
Inductive RemovePC :=
| RmAwaitUnsubscribe (c : oid)     (* in [await _mqtt.unsubscribe(None, self)] *)
| RmAwaitLog (c : oid)             (* in [await config._log.asyncLog(...)] *)
| RmAwaitDiscovery (c : oid).      (* in [await self._discovery(False)] *)

Record State := {
  heap : list Component;             (* the objects, by allocation order *)
  _components : option oid;          (* head of the registered components *)
  _init_queue_start : option oid;    (* start of the running drain, or None *)
  drains : list DrainPC;             (* the live __initNetworkProcess tasks *)
  removals : list RemovePC;          (* the suspended removeComponent calls *)
  trace : list Obs;
}.

Definition initial : State :=
  {| heap := []; _components := None; _init_queue_start := None;
     drains := []; removals := []; trace := [] |}.

Definition log (st : State) (obs : list Obs) : State :=
  {| heap := heap st; _components := _components st;
     _init_queue_start := _init_queue_start st; drains := drains st;
     removals := removals st; trace := trace st ++ obs |}.

Definition set_registry (st : State) (h : list Component) (head : option oid) : State :=
  {| heap := h; _components := head;
     _init_queue_start := _init_queue_start st; drains := drains st;
     removals := removals st; trace := trace st |}.

Definition set_init_queue_start (st : State) (p : option oid) : State :=
  {| heap := heap st; _components := _components st;
     _init_queue_start := p; drains := drains st;
     removals := removals st; trace := trace st |}.

Definition set_drains (st : State) (d : list DrainPC) : State :=
  {| heap := heap st; _components := _components st;
     _init_queue_start := _init_queue_start st; drains := d;
     removals := removals st; trace := trace st |}.

Definition set_removals (st : State) (r : list RemovePC) : State :=
  {| heap := heap st; _components := _components st;
     _init_queue_start := _init_queue_start st; drains := drains st;
     removals := r; trace := trace st |}.

(** The list reached from [o] along [_next_component]; [None] when the walk
    takes more than [fuel] steps or leaves the heap. *)
Fixpoint chain (fuel : nat) (h : list Component) (o : option oid) : option (list oid) :=
  match o with
  | None => Some []
  | Some c =>
      match fuel with
      | 0 => None
      | S f => co ← h !! c; (c ::.) <$> chain f h (_next_component co)
      end
  end.

(** The registry list: the components reached from the head. *)
Definition registry (st : State) : option (list oid) :=
  chain (List.length (heap st)) (heap st) (_components st).

(** The same list as a relation, without a bound on the walk. *)
Inductive Chain (h : list Component) : option oid -> list oid -> Prop :=
| Chain_nil : Chain h None []
| Chain_cons c co l :
    h !! c = Some co -> Chain h (_next_component co) l -> Chain h (Some c) (c :: l).

(** The loop of [__init__] (lines 50 to 55), entered with [c] not None:
    walk to the component without a successor and hang [self] there. *)
Fixpoint link_tail (fuel : nat) (h : list Component) (c self : oid)
  : option (list Component) :=
  match fuel with
  | 0 => None
  | S f =>
      co ← h !! c;
      match _next_component co with
      | None => Some (<[c := set_next co (Some self)]> h)
      | Some n => link_tail f h n self
      end
  end.

(** The loop of [removeComponent] (lines 79 to 89): the new heap, the new
    head and whether [component] was met. *)
Fixpoint unlink (fuel : nat) (h : list Component) (head c p : option oid) (component : oid)
  : option (list Component * option oid * bool) :=
  match c with
  | None => Some (h, head, false)
  | Some ci =>
      match fuel with
      | 0 => None
      | S f =>
          co ← h !! ci;
          if Nat.eqb ci component then
            match p with
            | None => Some (h, _next_component co, true)
            | Some pi =>
                po ← h !! pi;
                Some (<[pi := set_next po (_next_component co)]> h, head, true)
            end
          else unlink f h head (_next_component co) (Some ci) component
      end
  end.

Section ComponentModule.

(** [config], [sys_vars], [_mqtt] and [.definitions] are collaborators of
    the module: their constants and helpers are the variables here. *)
Variable MQTT_DISCOVERY_ENABLED : bool.         (* config.MQTT_DISCOVERY_ENABLED *)
Variable MQTT_DISCOVERY_PREFIX : string.        (* config.MQTT_DISCOVERY_PREFIX *)
Variable MQTT_HOME : string.                    (* config.MQTT_HOME *)
Variable MQTT_AVAILABILITY_SUBTOPIC : string.   (* config.MQTT_AVAILABILITY_SUBTOPIC *)
Variable getDeviceID : string.                  (* sys_vars.getDeviceID() *)
Variable getDeviceDiscovery : string.           (* sys_vars.getDeviceDiscovery() *)
Variable DISCOVERY_BASE : string.               (* template of .definitions *)
Variable DISCOVERY_AVAILABILITY : string.       (* template of .definitions *)
Variable isDeviceTopic : string -> PyVal.       (* _mqtt.isDeviceTopic *)
Variable getRealTopic : string -> string.       (* _mqtt.getRealTopic *)
Variable getComponent : State -> string -> PyVal.   (* config.getComponent *)
Variable getComponentName : oid -> string.      (* config.getComponentName *)

(** *** Discovery message composer *)

(** [x is False] *)
Definition is_False (v : PyVal) : bool :=
  match v with VBool false => true | _ => false end.

(** [friendly_name or name], for a [friendly_name] that is None or a str:
    None and the empty string are falsy. *)
Definition py_or (friendly_name : option string) (name : string) : string :=
  match friendly_name with
  | None => name
  | Some s => if String.eqb s EmptyString then name else s
  end.

Definition _getDiscoveryTopic (component_type name : string) : option string :=
  format "{!s}/{!s}/{!s}/{!s}/config"
         [MQTT_DISCOVERY_PREFIX; component_type; getDeviceID; name].

Definition _composeAvailability : option string :=
  format DISCOVERY_AVAILABILITY [MQTT_HOME; getDeviceID; MQTT_AVAILABILITY_SUBTOPIC].

Definition _composeDiscoveryMsg (component_topic name component_type_discovery : string)
           (friendly_name : option string) (no_avail : bool) : option string :=
  let friendly_name := py_or friendly_name name in
  let component_topic :=
    if is_False (isDeviceTopic component_topic) then component_topic
    else getRealTopic component_topic in
  avail ← (if no_avail then Some EmptyString else _composeAvailability);
  format DISCOVERY_BASE
         [component_topic; friendly_name; getDeviceID; name; avail;
          component_type_discovery; getDeviceDiscovery].

(** The bus calls of [_publishDiscovery] and of [_deleteDiscovery]; [None]
    when composing raises. *)
Definition _publishDiscovery (component_type component_topic unique_name discovery_type : string)
           (friendly_name : option string) : option (list Publish) :=
  topic ← _getDiscoveryTopic component_type unique_name;
  msg ← _composeDiscoveryMsg component_topic unique_name discovery_type friendly_name false;
  Some [mkPublish topic msg 1 true].

Definition _deleteDiscovery (component_type unique_name : string) : option (list Publish) :=
  topic ← _getDiscoveryTopic component_type unique_name;
  Some [mkPublish topic EmptyString 1 true].

(** *** Construction: registration and the start of the drain *)

(** [ComponentBase.__init__].  The object is allocated at the end of the
    heap; its other attributes are assigned in the same atomic section, so
    the record is written at once.  [None]: the walk does not end. *)
Definition ComponentBase_init (component_name version : string) (unit_index : Z)
           (discover : bool) (discovery : bool -> list Publish) (st : State) : option State :=
  let self := List.length (heap st) in
  let h := heap st ++ [ {| _next_component := None; COMPONENT_NAME := component_name;
                           VERSION := version; _count := unit_index;
                           __discover := discover; _discovery := discovery |} ] in
  st1 ← match _components st with
        | None => Some (log (set_registry st h (Some self)) [ObsRegister self])
        | Some c =>
            h' ← link_tail (List.length h) h c self;
            Some (log (set_registry st h' (Some c)) [ObsRegister self])
        end;
  match _init_queue_start st1 with
  | None =>
      Some (log (set_drains (set_init_queue_start st1 (Some self))
                            (drains st1 ++ [DrainCreated]))
                [ObsCreateTask])
  | Some _ => Some st1
  end.

(** *** The drain: [__initNetworkProcess] *)

(** The bus calls of [c._init_network()].  The hook suspends in its log and
    in its discovery; no section of it touches the registry or the drain
    pointer, so it is cut as one suspension, its calls recorded on entry. *)
Definition _init_network (c : oid) (o : Component) : list Obs :=
  ObsInitNetwork c
    :: ObsAsyncLog "info" ["Added module"; COMPONENT_NAME o; "version"; VERSION o;
                           "as component"; getComponentName c]
    :: (if MQTT_DISCOVERY_ENABLED && __discover o
        then ObsDiscovery c true :: map ObsPublish (_discovery o true) else []).

(** The head of [while c is not None]: either the hook of [c] is entered
    and the task suspends, or the pointer is reset and the task ends. *)
Definition drain_loop (c : option oid) (st : State) : option (State * option DrainPC) :=
  match c with
  | None => Some (set_init_queue_start st None, None)
  | Some ci => o ← heap st !! ci; Some (log st (_init_network ci o), Some (DrainAwaitInit ci))
  end.

(** One atomic section of the task, up to its next suspension. *)
Definition initNetworkProcess (pc : DrainPC) (st : State) : option (State * option DrainPC) :=
  match pc with
  | DrainCreated => drain_loop (_init_queue_start st) st
  | DrainAwaitInit c => o ← heap st !! c; drain_loop (_next_component o) st
  end.

(** *** Removal: [removeComponent] and [_remove] *)

Definition not_a_component : string :=
  "Can't remove a component that is not an instance of pysmartnode.utils.component.Component".

(** Lines 70 and 71: a name is looked up first. *)
Definition resolve (component : PyVal) (st : State) : PyVal :=
  match component with VStr s => getComponent st s | v => v end.

(** [isinstance(component, ComponentBase)] *)
Definition is_component (v : PyVal) : bool :=
  match v with VObj _ => true | _ => false end.

(** Lines 70 to 77, up to the first suspension inside [_remove]. *)
Definition removeComponent_call (component : PyVal) (st : State)
  : State * (RemovePC + PyVal) :=
  let component := resolve component st in
  match component with
  | VObj c => (log st [ObsUnsubscribe c], inl (RmAwaitUnsubscribe c))
  | _ => (log st [ObsLogError not_a_component], inr (VBool false))
  end.

(** Lines 78 to 89: the unlinking, and the end of the function, which
    returns nothing. *)
Definition unlink_and_return (c : oid) (st : State) : option (State * (RemovePC + PyVal)) :=
  '(h, head, found) ← unlink (List.length (heap st)) (heap st) (_components st)
                             (_components st) None c;
  Some (log (set_registry st h head) (if found : bool then [ObsUnlink c] else []), inr VNone).

(** One atomic section of a suspended call, up to its next suspension or
    its return. *)
Definition removeComponent_resume (pc : RemovePC) (st : State)
  : option (State * (RemovePC + PyVal)) :=
  match pc with
  | RmAwaitUnsubscribe c =>
      o ← heap st !! c;
      Some (log st [ObsAsyncLog "info" ["Removed component"; getComponentName c; "module";
                                        COMPONENT_NAME o; "version"; VERSION o]],
            inl (RmAwaitLog c))
  | RmAwaitLog c =>
      o ← heap st !! c;
      if MQTT_DISCOVERY_ENABLED && __discover o
      then Some (log st (ObsDiscovery c false :: map ObsPublish (_discovery o false)),
                 inl (RmAwaitDiscovery c))
      else unlink_and_return c st
  | RmAwaitDiscovery c => unlink_and_return c st
  end.

(** A call that nothing interleaves with: every suspension is resumed at
    once. *)
Fixpoint remove_run (n : nat) (r : State * (RemovePC + PyVal)) : option (State * PyVal) :=
  match r with
  | (st, inr v) => Some (st, v)
  | (st, inl pc) =>
      match n with
      | 0 => None
      | S n' => removeComponent_resume pc st ≫= remove_run n'
      end
  end.

Definition removeComponent (component : PyVal) (st : State) : option (State * PyVal) :=
  remove_run 3 (removeComponent_call component st).

(** *** The cooperative scheduler *)

(** What can happen next: a constructor runs, the application calls
    [removeComponent], or the event loop resumes a suspended task. *)
Inductive Event :=
| EvConstruct (component_name version : string) (unit_index : Z) (discover : bool)
              (discovery : bool -> list Publish)
| EvDrain (k : nat)
| EvRemoveCall (component : PyVal)
| EvRemove (k : nat).

(** [None]: the event is not enabled, or the section does not return. *)
Definition step (ev : Event) (st : State) : option State :=
  match ev with
  | EvConstruct n v i d disc => ComponentBase_init n v i d disc st
  | EvDrain k =>
      pc ← drains st !! k;
      '(st', r) ← initNetworkProcess pc st;
      Some (set_drains st' (match r with
                            | Some pc' => <[k := pc']> (drains st')
                            | None => delete k (drains st')
                            end))
  | EvRemoveCall component =>
      let '(st', r) := removeComponent_call component st in
      Some (match r with
            | inl pc => set_removals st' (removals st' ++ [pc])
            | inr v => log st' [ObsReturn v]
            end)
  | EvRemove k =>
      pc ← removals st !! k;
      '(st', r) ← removeComponent_resume pc st;
      Some (match r with
            | inl pc' => set_removals st' (<[k := pc']> (removals st'))
            | inr v => log (set_removals st' (delete k (removals st'))) [ObsReturn v]
            end)
  end.

Fixpoint run (evs : list Event) (st : State) : option State :=
  match evs with
  | [] => Some st
  | ev :: evs' => step ev st ≫= run evs'
  end.

(** The components whose [_init_network] was entered, and the components
    constructed, each in the order of the trace. *)
Definition hooks (t : list Obs) : list oid :=
  omap (fun o => match o with ObsInitNetwork c => Some c | _ => None end) t.

Definition registered (t : list Obs) : list oid :=
  omap (fun o => match o with ObsRegister c => Some c | _ => None end) t.

Definition is_construct_or_drain (ev : Event) : bool :=
  match ev with EvConstruct _ _ _ _ _ | EvDrain _ => true | _ => false end.

(** The publishes of a trace, and its error log lines. *)
Definition publishes (t : list Obs) : list Publish :=
  omap (fun o => match o with ObsPublish p => Some p | _ => None end) t.

Definition errors (t : list Obs) : list string :=
  omap (fun o => match o with ObsLogError m => Some m | _ => None end) t.

(** [bool(v)] *)
Definition truthy (v : PyVal) : bool :=
  match v with
  | VNone => false
  | VBool b => b
  | VInt z => negb (Z.eqb z 0)
  | VStr s => negb (String.eqb s EmptyString)
  | VList l => negb (Nat.eqb (List.length l) 0)
  | VObj _ => true
  end.

(** *** Invariants *)

(** No object points out of the heap. *)
Definition heap_closed (h : list Component) : Prop :=
  forall c o n, h !! c = Some o -> _next_component o = Some n -> n < List.length h.

(** Idle: no pointer and no task.  Draining: a pointer and one task. *)
Definition single_drain (st : State) : Prop :=
  match _init_queue_start st with
  | None => drains st = []
  | Some _ => exists pc, drains st = [pc]
  end.


(** With constructions and drain sections only: the components entered so
    far are a front part of the registry, and the task stands where that
    part ends. *)
Definition fifo_inv (st : State) : Prop :=
  exists l, registry st = Some l /\ registered (trace st) = l /\
  match drains st with
  | [] => _init_queue_start st = None /\ hooks (trace st) = l
  | [DrainCreated] =>
      exists p l2, _init_queue_start st = Some p /\ Chain (heap st) (Some p) l2 /\
                   l = hooks (trace st) ++ l2
  | [DrainAwaitInit c] =>
      exists hs l2, is_Some (_init_queue_start st) /\ hooks (trace st) = hs ++ [c] /\
                    Chain (heap st) (Some c) (c :: l2) /\ l = hs ++ c :: l2
  | _ => False
  end.


(** *** Two sentences of the specification, as they are worded *)

(** What one call added to the trace. *)
Definition added (st st' : State) : list Obs := drop (List.length (trace st)) (trace st').

(** "Removing something that is not a Component, or a Component that is
    not registered, logs an error, returns failure and leaves the registry
    as it is." *)
Definition spec_removal_failure (component : PyVal) (st : State) : Prop :=
  forall l, registry st = Some l ->
  (is_component (resolve component st) = false \/
   exists c, resolve component st = VObj c /\ c ∉ l) ->
  exists st' v,
    removeComponent component st = Some (st', v) /\ truthy v = false /\
    errors (added st st') <> [] /\ registry st' = Some l.

(** "Removing a component with discovery enabled publishes exactly one
    retained empty message, after the unsubscription and before the
    unlinking." *)
Definition spec_tombstone (c : oid) (st : State) : Prop :=
  forall o, heap st !! c = Some o -> MQTT_DISCOVERY_ENABLED && __discover o = true ->
  exists st' v topic qos pre post,
    removeComponent (VObj c) st = Some (st', v) /\
    added st st' = pre ++ ObsPublish (mkPublish topic EmptyString qos true) :: post /\
    publishes pre = [] /\ publishes post = [] /\
    ObsUnsubscribe c ∈ pre /\ ObsUnlink c ∈ post.

(** The topic of [_getDiscoveryTopic], written out. *)
Definition discovery_topic (component_type name : string) : string :=
  MQTT_DISCOVERY_PREFIX +:+ "/" +:+ component_type +:+ "/" +:+ getDeviceID
    +:+ "/" +:+ name +:+ "/config".

Definition removed_log (c : oid) (o : Component) : Obs :=
  ObsAsyncLog "info" ["Removed component"; getComponentName c; "module";
                      COMPONENT_NAME o; "version"; VERSION o].


(** *** The list walked from a pointer *)

Lemma chain_Chain f h o l : chain f h o = Some l -> Chain h o l.
Proof.
  revert o l. induction f as [|f IH]; intros [c|] l H; simpl in H;
    simplify_eq; try constructor.
  destruct (h !! c) as [co|] eqn:Hc; simpl in H; [|done].
  destruct (chain f h (_next_component co)) as [l'|] eqn:Hl; simpl in H; simplify_eq.
  econstructor; eauto.
Qed.

Lemma chain_length f h o l : chain f h o = Some l -> List.length l <= f.
Proof.
  revert o l. induction f as [|f IH]; intros [c|] l H; simpl in H;
    simplify_eq; simpl; try lia.
  destruct (h !! c) as [co|]; simpl in H; [|done].
  destruct (chain f h (_next_component co)) as [l'|] eqn:Hl; simpl in H; simplify_eq.
  apply IH in Hl. simpl. lia.
Qed.

Lemma Chain_chain h o l f : Chain h o l -> List.length l <= f -> chain f h o = Some l.
Proof.
  intros H. revert f. induction H as [|c co l Hc _ IH]; intros f Hf.
  - by destruct f.
  - destruct f as [|f]; simpl in *; [lia|].
    rewrite Hc. simpl. rewrite IH by lia. done.
Qed.

Lemma Chain_det h o l1 l2 : Chain h o l1 -> Chain h o l2 -> l1 = l2.
Proof.
  intros H. revert l2. induction H as [|c co l Hc _ IH]; intros l2 H2; inversion H2; subst.
  - done.
  - simplify_eq. f_equal. auto.
Qed.

Lemma Chain_suffix h o l1 c l2 : Chain h o (l1 ++ c :: l2) -> Chain h (Some c) (c :: l2).
Proof.
  revert o. induction l1 as [|a l1 IH]; intros o H; simpl in H.
  - by inversion H; subst.
  - inversion H; subst. eauto.
Qed.

Lemma Chain_NoDup h o l : Chain h o l -> NoDup l.
Proof.
  induction 1 as [|c co l Hc Hl IH]; constructor; [|done].
  intros (l1 & l2 & ->)%list_elem_of_split.
  pose proof (Chain_suffix _ _ _ _ _ Hl) as Hs.
  assert (Chain h (Some c) (c :: l1 ++ c :: l2)) as Hfull by (econstructor; eauto).
  pose proof (Chain_det _ _ _ _ Hs Hfull) as Heq.
  apply (f_equal List.length) in Heq. simpl in Heq. rewrite length_app in Heq. simpl in Heq. lia.
Qed.

Lemma Chain_valid h o l c : Chain h o l -> c ∈ l -> c < List.length h.
Proof.
  induction 1 as [|c' co l Hc _ IH]; intros Hin.
  - by apply elem_of_nil in Hin.
  - apply elem_of_cons in Hin as [->|Hin]; [by eapply lookup_lt_Some|auto].
Qed.

Lemma Chain_app_heap h h' o l : Chain h o l -> Chain (h ++ h') o l.
Proof.
  induction 1; econstructor; eauto. by apply lookup_app_l_Some.
Qed.

(** Writing an object that is not on the list leaves the list alone. *)
Lemma Chain_insert_frame h o l t x : Chain h o l -> t ∉ l -> Chain (<[t := x]> h) o l.
Proof.
  induction 1 as [|c co l Hc _ IH]; intros Hn; [constructor|].
  apply not_elem_of_cons in Hn as [Hne Hn].
  econstructor; [|eauto]. by rewrite list_lookup_insert_ne.
Qed.

Lemma registry_Chain st l :
  registry st = Some l <->
  Chain (heap st) (_components st) l /\ List.length l <= List.length (heap st).
Proof.
  unfold registry. split.
  - intros H. split; [by eapply chain_Chain|by eapply chain_length].
  - intros [H1 H2]. by apply Chain_chain.
Qed.

(** *** Hanging a component at the tail *)

Lemma link_tail_spec h c l f self :
  Chain h (Some c) l -> List.length l <= f ->
  exists t to, last l = Some t /\ h !! t = Some to /\ _next_component to = None /\
               link_tail f h c self = Some (<[t := set_next to (Some self)]> h).
Proof.
  revert c f. induction l as [|a l IH]; intros c f H Hf; inversion H as [|? co ? Hc Hl]; subst.
  destruct f as [|f]; simpl in Hf; [lia|]. simpl. rewrite Hc. simpl.
  destruct (_next_component co) as [n|] eqn:Hn.
  - destruct (IH n f Hl ltac:(lia)) as (t & to & Hlast & Ht & Hto & Hlink).
    exists t, to. split_and!; try done.
    inversion Hl; subst. simpl in *. done.
  - inversion Hl; subst. exists a, co. done.
Qed.

Lemma Chain_link h m l t to self so :
  Chain h (Some m) l -> last l = Some t ->
  h !! t = Some to -> _next_component to = None ->
  h !! self = Some so -> _next_component so = None -> self ∉ l ->
  Chain (<[t := set_next to (Some self)]> h) (Some m) (l ++ [self]).
Proof.
  intros H Hlast Ht Hto Hself Hso Hnin. revert m H Hlast Hnin.
  induction l as [|a l IH]; intros m H Hlast Hnin; inversion H as [|? co ? Hc Hl]; subst.
  apply not_elem_of_cons in Hnin as [Hne Hnin].
  destruct l as [|b l].
  - simpl in Hlast. simplify_eq. inversion Hl; subst. simpl.
    econstructor.
    + apply list_lookup_insert_eq. by eapply lookup_lt_Some.
    + simpl. econstructor.
      * rewrite list_lookup_insert_ne by done. exact Hself.
      * rewrite Hso. constructor.
  - assert (_next_component co = Some b) as Hnext by (inversion Hl; congruence).
    assert (a <> t) as Hat by (intros ->; congruence).
    simpl. econstructor.
    + rewrite list_lookup_insert_ne by done. exact Hc.
    + rewrite Hnext. apply IH; [by rewrite <- Hnext|done|done].
Qed.

Lemma Chain_last_tail h m l :
  Chain h (Some m) l ->
  exists t to, last l = Some t /\ h !! t = Some to /\ _next_component to = None.
Proof.
  intros H. destruct (link_tail_spec h m l (List.length l) 0 H ltac:(lia))
    as (t & to & ? & ? & ? & _). eauto.
Qed.

(** What [ComponentBase_init] does to a registry that is a list. *)
Lemma ComponentBase_init_spec n v i d disc st l :
  registry st = Some l ->
  let self := List.length (heap st) in
  let o := {| _next_component := None; COMPONENT_NAME := n; VERSION := v; _count := i;
              __discover := d; _discovery := disc |} in
  exists st',
    ComponentBase_init n v i d disc st = Some st' /\
    heap st' = match last l with
               | None => heap st ++ [o]
               | Some t => alter (fun to => set_next to (Some self)) t (heap st ++ [o])
               end /\
    _components st' = Some (default self (head l)) /\
    Chain (heap st') (_components st') (l ++ [self]) /\
    removals st' = removals st /\
    match _init_queue_start st with
    | None => _init_queue_start st' = Some self /\ drains st' = drains st ++ [DrainCreated]
              /\ trace st' = trace st ++ [ObsRegister self; ObsCreateTask]
    | Some p => _init_queue_start st' = Some p /\ drains st' = drains st
                /\ trace st' = trace st ++ [ObsRegister self]
    end.
Proof.
  intros [Hch Hlen]%registry_Chain self o. unfold ComponentBase_init. fold self o.
  assert ((heap st ++ [o]) !! self = Some o) as Hself.
  { rewrite lookup_app_r by (unfold self; lia).
    replace (self - List.length (heap st)) with 0 by (unfold self; lia). done. }
  destruct (_components st) as [c|] eqn:Hhd.
  - pose proof (Chain_app_heap _ [o] _ _ Hch) as Hch'.
    destruct (link_tail_spec _ c l (List.length (heap st ++ [o])) self Hch')
      as (t & to & Hlast & Ht & Hto & Hlink).
    { rewrite length_app. simpl. lia. }
    rewrite Hlink. simpl.
    assert (self ∉ l) as Hnin.
    { intros Hin. eapply Chain_valid in Hin; [|exact Hch]. unfold self in Hin. lia. }
    assert (head l = Some c) as Hhead by (inversion Hch; done).
    assert (alter (fun to => set_next to (Some self)) t (heap st ++ [o])
            = <[t := set_next to (Some self)]> (heap st ++ [o])) as Halt.
    { apply list_eq. intros k. destruct (decide (k = t)) as [->|Hne].
      - rewrite list_lookup_alter_eq, Ht. simpl.
        symmetry. apply list_lookup_insert_eq. by eapply lookup_lt_Some.
      - by rewrite list_lookup_alter_ne, list_lookup_insert_ne. }
    pose proof (Chain_link _ _ _ _ _ _ _ Hch' Hlast Ht Hto Hself eq_refl Hnin) as Hnew.
    rewrite Hlast, Hhead, Halt.
    destruct (_init_queue_start st) as [p|] eqn:Hp; simpl; rewrite ?Hp;
      (eexists; split; [reflexivity|]); simpl; split_and!; try done.
    by rewrite <- app_assoc.
  - inversion Hch; subst. simpl.
    assert (Chain (heap st ++ [o]) (Some self) [self]) as Hnew.
    { econstructor; [exact Hself|constructor]. }
    destruct (_init_queue_start st) as [p|] eqn:Hp; simpl; rewrite ?Hp;
      (eexists; split; [reflexivity|]); simpl; split_and!; try done.
    by rewrite <- app_assoc.
Qed.

(** *** Taking a component out of the list *)

Lemma unlink_absent h head c p l x f :
  Chain h c l -> x ∉ l -> List.length l <= f ->
  unlink f h head c p x = Some (h, head, false).
Proof.
  intros H. revert p f. induction H as [|c co l Hc _ IH]; intros p f Hn Hf.
  - by destruct f.
  - apply not_elem_of_cons in Hn as [Hne Hn].
    destruct f as [|f]; simpl in *; [lia|]. rewrite Hc. simpl.
    destruct (Nat.eqb_spec c x) as [->|_]; [done|]. apply IH; [done|lia].
Qed.

Lemma unlink_present h head c p a x b xo f :
  Chain h c (a ++ x :: b) -> x ∉ a -> List.length (a ++ x :: b) <= f ->
  h !! x = Some xo ->
  unlink f h head c p x =
  match (match last a with Some q => Some q | None => p end) with
  | None => Some (h, _next_component xo, true)
  | Some q => qo ← h !! q; Some (<[q := set_next qo (_next_component xo)]> h, head, true)
  end.
Proof.
  intros H Hn Hf Hx. revert c p f H Hn Hf.
  induction a as [|a0 a IH]; intros c p f H Hn Hf; simpl in *;
    inversion H as [|? co ? Hc Hl]; subst; (destruct f as [|f]; [simpl in Hf; lia|]);
    simpl; rewrite Hc; simpl.
  - rewrite Nat.eqb_refl. simplify_eq. by destruct p.
  - apply not_elem_of_cons in Hn as [Hne Hn].
    destruct (Nat.eqb_spec a0 x) as [->|_]; [done|].
    rewrite (IH _ (Some a0) f Hl Hn) by (simpl in Hf; lia).
    destruct a as [|a1 a]; [done|].
    rewrite last_cons_cons.
    destruct (last (a1 :: a)) eqn:Hla; [done|]. by apply last_None in Hla.
Qed.

Lemma Chain_unlink h o a q x b qo xo :
  Chain h o (a ++ q :: x :: b) -> h !! q = Some qo -> h !! x = Some xo ->
  Chain (<[q := set_next qo (_next_component xo)]> h) o (a ++ q :: b).
Proof.
  intros H Hq Hx. revert o H. induction a as [|c a IH]; intros o H;
    pose proof (Chain_NoDup _ _ _ H) as Hnd; simpl in *;
    inversion H as [|? co ? Hc Hl]; subst; apply NoDup_cons in Hnd as [Hnin Hnd].
  - simplify_eq. inversion Hl as [|? co' ? Hc' Hl']; subst. simplify_eq.
    econstructor.
    + apply list_lookup_insert_eq. by eapply lookup_lt_Some.
    + simpl. apply Chain_insert_frame; [done|].
      intros Hin. apply Hnin. by apply elem_of_cons; right.
  - econstructor.
    + rewrite list_lookup_insert_ne; [exact Hc|].
      intros ->. apply Hnin. apply elem_of_app. right. by apply elem_of_cons; left.
    + by apply IH.
Qed.

(** The walk of [removeComponent] on a list that holds [x]. *)
Lemma unlink_spec_present h head a x b f :
  Chain h head (a ++ x :: b) -> List.length (a ++ x :: b) <= f ->
  exists h' head',
    unlink f h head head None x = Some (h', head', true) /\
    Chain h' head' (a ++ b) /\ List.length h' = List.length h /\ h' !! x = h !! x.
Proof.
  intros H Hf. pose proof (Chain_NoDup _ _ _ H) as Hnd.
  apply NoDup_app in Hnd as (Hnda & Hdisj & Hndb).
  apply NoDup_cons in Hndb as [Hxb Hndb].
  assert (x ∉ a) as Hxa.
  { intros Hin. eapply Hdisj; [exact Hin|]. by apply elem_of_cons; left. }
  pose proof (Chain_suffix _ _ _ _ _ H) as Hs.
  inversion Hs as [|? xo ? Hx Hb]; subst.
  rewrite (unlink_present _ _ _ None _ _ _ xo _ H Hxa Hf Hx).
  destruct (last a) as [q|] eqn:Hla.
  - apply last_Some in Hla as [a' ->].
    rewrite <- app_assoc in H. simpl in H.
    assert (is_Some (h !! q)) as [qo Hq].
    { apply lookup_lt_is_Some. eapply Chain_valid; [exact H|].
      apply elem_of_app. right. by apply elem_of_cons; left. }
    rewrite Hq. simpl. eexists _, _. split; [done|]. split_and!.
    + rewrite <- app_assoc. simpl. by eapply Chain_unlink.
    + by rewrite length_insert.
    + apply list_lookup_insert_ne. intros ->. apply Hxa.
      apply elem_of_app. right. by apply elem_of_cons; left.
  - apply last_None in Hla as ->. simpl in *.
    eexists _, _. split; [done|]. by split_and!.
Qed.

Lemma filter_ne_absent (x : oid) (l : list oid) :
  x ∉ l -> filter (fun y => y <> x) l = l.
Proof.
  induction l as [|a l IH]; intros Hn; [done|].
  apply not_elem_of_cons in Hn as [Hne Hn].
  rewrite filter_cons_True by done. by rewrite IH.
Qed.

Lemma filter_ne_present (x : oid) (a b : list oid) :
  x ∉ a -> x ∉ b -> filter (fun y => y <> x) (a ++ x :: b) = a ++ b.
Proof.
  intros Ha Hb. rewrite filter_app, filter_cons_False by (intros Hne; by apply Hne).
  by rewrite !filter_ne_absent.
Qed.

(** The end of [removeComponent] on a registry that is a list: the list
    loses [c] and nothing else; [c] itself, the drain pointer and the tasks
    are left as they are. *)
Lemma unlink_and_return_spec c st l :
  registry st = Some l ->
  exists st',
    unlink_and_return c st = Some (st', inr VNone) /\
    registry st' = Some (filter (fun y => y <> c) l) /\
    _init_queue_start st' = _init_queue_start st /\
    drains st' = drains st /\ removals st' = removals st /\
    List.length (heap st') = List.length (heap st) /\
    heap st' !! c = heap st !! c /\
    trace st' = trace st ++ (if bool_decide (c ∈ l) then [ObsUnlink c] else []) /\
    (c ∉ l -> heap st' = heap st /\ _components st' = _components st).
Proof.
  intros [Hch Hlen]%registry_Chain. unfold unlink_and_return.
  destruct (decide (c ∈ l)) as [Hin|Hnin].
  - apply list_elem_of_split in Hin as (a & b & ->).
    destruct (unlink_spec_present _ _ _ _ _ _ Hch Hlen) as (h' & head' & Hu & Hch' & Hl' & Hc).
    rewrite Hu. simpl. eexists. split; [done|]. simpl.
    pose proof (Chain_NoDup _ _ _ Hch) as Hnd.
    apply NoDup_app in Hnd as (_ & Hdisj & Hndb). apply NoDup_cons in Hndb as [Hxb _].
    assert (c ∉ a) as Hxa.
    { intros Hin. eapply Hdisj; [exact Hin|]. by apply elem_of_cons; left. }
    rewrite filter_ne_present by done.
    rewrite bool_decide_eq_true_2
      by (apply elem_of_app; right; by apply elem_of_cons; left).
    split_and!; try done.
    + apply registry_Chain. simpl. split; [done|].
      rewrite Hl'. rewrite !length_app in *. simpl in Hlen. lia.
    + intros Hn. exfalso. apply Hn. apply elem_of_app. right. by apply elem_of_cons; left.
  - rewrite (unlink_absent _ _ _ _ _ _ _ Hch Hnin Hlen). simpl.
    eexists. split; [done|]. simpl.
    rewrite filter_ne_absent, bool_decide_eq_false_2 by done.
    split_and!; try done. by apply registry_Chain.
Qed.

Lemma ComponentBase_init_registry n v i d disc st l :
  registry st = Some l ->
  exists st',
    ComponentBase_init n v i d disc st = Some st' /\
    registry st' = Some (l ++ [List.length (heap st)]) /\
    List.length (heap st') = S (List.length (heap st)).
Proof.
  intros Hreg.
  destruct (ComponentBase_init_spec n v i d disc st l Hreg)
    as (st' & Hinit & Hheap & Hhd & Hch & _).
  apply registry_Chain in Hreg as [_ Hlen].
  assert (List.length (heap st') = S (List.length (heap st))) as Hl.
  { rewrite Hheap. destruct (last l); rewrite ?length_alter, length_app; simpl; lia. }
  exists st'. split_and!; try done.
  apply registry_Chain. split; [done|]. rewrite length_app, Hl. simpl. lia.
Qed.

(** *** One section of the drain *)

Lemma initNetworkProcess_spec pc st st' r :
  initNetworkProcess pc st = Some (st', r) ->
  heap st' = heap st /\ _components st' = _components st /\
  drains st' = drains st /\ removals st' = removals st /\
  match (match pc with
         | DrainCreated => _init_queue_start st
         | DrainAwaitInit c0 => heap st !! c0 ≫= _next_component
         end) with
  | None => r = None /\ _init_queue_start st' = None /\ trace st' = trace st
  | Some ci =>
      exists o, heap st !! ci = Some o /\ r = Some (DrainAwaitInit ci) /\
                _init_queue_start st' = _init_queue_start st /\
                trace st' = trace st ++ _init_network ci o
  end.
Proof.
  unfold initNetworkProcess, drain_loop. intros H.
  destruct pc as [|c0].
  - destruct (_init_queue_start st) as [ci|] eqn:Hp.
    + destruct (heap st !! ci) as [o|] eqn:Ho; simpl in H; simplify_eq.
      simpl. split_and!; try done. by exists o.
    + by simplify_eq.
  - destruct (heap st !! c0) as [o0|] eqn:Ho0; simpl in H; [|done].
    destruct (_next_component o0) as [ci|] eqn:Hn.
    + destruct (heap st !! ci) as [o|] eqn:Ho; simpl in H; simplify_eq.
      simpl. rewrite Hn. split_and!; try done. by exists o.
    + simplify_eq. simpl. by rewrite Hn.
Qed.

(** *** Invariants of every run *)

Lemma run_invariant (Q : Event -> bool) (P : State -> Prop) :
  (forall ev st st', Q ev = true -> P st -> step ev st = Some st' -> P st') ->
  forall evs st st', forallb Q evs = true -> P st -> run evs st = Some st' -> P st'.
Proof.
  intros Hstep. induction evs as [|ev evs IH]; intros st st' HQ HP Hrun; simpl in *.
  - by simplify_eq.
  - apply andb_prop in HQ as [HQ1 HQ2].
    destruct (step ev st) as [st1|] eqn:Hs; simpl in Hrun; [|done].
    eapply IH; [done| |done]. eauto.
Qed.

Lemma forallb_all (evs : list Event) : forallb (fun _ => true) evs = true.
Proof. by induction evs. Qed.

(** The registry stays a list. *)
Lemma step_registry ev st st' :
  is_Some (registry st) -> step ev st = Some st' -> is_Some (registry st').
Proof.
  intros [l Hl] Hstep. destruct ev as [n v i d disc|k|arg|k]; simpl in Hstep.
  - destruct (ComponentBase_init_registry n v i d disc st l Hl) as (st1 & H1 & H2 & _).
    rewrite H1 in Hstep. simplify_eq. eauto.
  - destruct (drains st !! k) as [pc|]; simpl in Hstep; [|done].
    destruct (initNetworkProcess pc st) as [[st1 r]|] eqn:Hd; simpl in Hstep; [|done].
    apply initNetworkProcess_spec in Hd as (Hh & Hc & _).
    simplify_eq. unfold registry in *. simpl. rewrite Hh, Hc. eauto.
  - unfold removeComponent_call in Hstep.
    destruct (resolve arg st); simplify_eq; exists l; exact Hl.
  - destruct (removals st !! k) as [pc|]; simpl in Hstep; [|done].
    destruct (removeComponent_resume pc st) as [[st1 r]|] eqn:Hr; simpl in Hstep; [|done].
    assert (is_Some (registry st1)) as Hreg1.
    { destruct pc as [c|c|c]; simpl in Hr.
      - destruct (heap st !! c); simpl in Hr; simplify_eq. exists l; exact Hl.
      - destruct (heap st !! c) as [o|]; simpl in Hr; [|done].
        destruct (MQTT_DISCOVERY_ENABLED && __discover o).
        + simplify_eq. exists l; exact Hl.
        + destruct (unlink_and_return_spec c st l Hl) as (st2 & H2 & Hreg2 & _).
          rewrite H2 in Hr. simplify_eq. eauto.
      - destruct (unlink_and_return_spec c st l Hl) as (st2 & H2 & Hreg2 & _).
        rewrite H2 in Hr. simplify_eq. eauto. }
    destruct r; simplify_eq; exact Hreg1.
Qed.

Lemma reachable_registry evs st :
  run evs initial = Some st -> is_Some (registry st).
Proof.
  intros Hrun.
  eapply (run_invariant (fun _ => true) (fun s => is_Some (registry s)));
    [|apply forallb_all| |exact Hrun].
  - intros ev s s' _. apply step_registry.
  - by exists [].
Qed.

Lemma removeComponent_call_frame arg st st' r :
  removeComponent_call arg st = (st', r) ->
  heap st' = heap st /\ _components st' = _components st /\
  _init_queue_start st' = _init_queue_start st /\ drains st' = drains st /\
  removals st' = removals st.
Proof.
  unfold removeComponent_call. intros H.
  destruct (resolve arg st); by simplify_eq.
Qed.

Lemma removeComponent_resume_frame pc st st' r :
  is_Some (registry st) ->
  removeComponent_resume pc st = Some (st', r) ->
  _init_queue_start st' = _init_queue_start st /\ drains st' = drains st /\
  removals st' = removals st /\ List.length (heap st') = List.length (heap st).
Proof.
  intros [l Hl] Hr. destruct pc as [c|c|c]; simpl in Hr.
  - destruct (heap st !! c); simpl in Hr; by simplify_eq.
  - destruct (heap st !! c) as [o|]; simpl in Hr; [|done].
    destruct (MQTT_DISCOVERY_ENABLED && __discover o); [by simplify_eq|].
    destruct (unlink_and_return_spec c st l Hl) as (st2 & H2 & _ & ? & ? & ? & ? & _).
    rewrite H2 in Hr. by simplify_eq.
  - destruct (unlink_and_return_spec c st l Hl) as (st2 & H2 & _ & ? & ? & ? & ? & _).
    rewrite H2 in Hr. by simplify_eq.
Qed.

Lemma step_single_drain ev st st' :
  is_Some (registry st) -> single_drain st -> step ev st = Some st' -> single_drain st'.
Proof.
  intros [l Hl] Hsd Hstep. unfold single_drain in *.
  destruct ev as [n v i d disc|k|arg|k]; simpl in Hstep.
  - destruct (ComponentBase_init_spec n v i d disc st l Hl)
      as (st1 & H1 & _ & _ & _ & _ & Hq).
    rewrite H1 in Hstep. simplify_eq.
    destruct (_init_queue_start st) as [p|].
    + destruct Hq as (-> & -> & _). done.
    + destruct Hq as (-> & -> & _). rewrite Hsd. by exists DrainCreated.
  - destruct (drains st !! k) as [pc|] eqn:Hk; simpl in Hstep; [|done].
    destruct (initNetworkProcess pc st) as [[st1 r]|] eqn:Hd; simpl in Hstep; [|done].
    apply initNetworkProcess_spec in Hd as (_ & _ & Hdr & _ & Hc). simplify_eq. simpl.
    destruct (_init_queue_start st) as [p|] eqn:Hp; [|by rewrite Hsd in Hk].
    destruct Hsd as [pc0 Hsd]. rewrite Hdr, Hsd. rewrite Hsd in Hk.
    destruct k as [|k]; [|done].
    destruct (match pc with
              | DrainCreated => Some p
              | DrainAwaitInit c0 => heap st !! c0 ≫= _next_component
              end) as [ci|].
    + destruct Hc as (o & _ & -> & -> & _). rewrite ?Hp. by eexists.
    + by destruct Hc as (-> & -> & _).
  - destruct (removeComponent_call arg st) as [st1 r] eqn:Hc.
    apply removeComponent_call_frame in Hc as (_ & _ & Hq & Hdr & _).
    destruct r; simplify_eq; simpl; by rewrite Hq, Hdr.
  - destruct (removals st !! k) as [pc|]; simpl in Hstep; [|done].
    destruct (removeComponent_resume pc st) as [[st1 r]|] eqn:Hr; simpl in Hstep; [|done].
    apply removeComponent_resume_frame in Hr as (Hq & Hdr & _); [|by eauto].
    destruct r; simplify_eq; simpl; by rewrite Hq, Hdr.
Qed.

Lemma reachable_single_drain evs st :
  run evs initial = Some st -> is_Some (registry st) /\ single_drain st.
Proof.
  intros Hrun.
  eapply (run_invariant (fun _ => true)
                        (fun s => is_Some (registry s) /\ single_drain s));
    [|apply forallb_all| |exact Hrun].
  - intros ev s s' _ [Hr Hs] Hstep. split; [by eapply step_registry|by eapply step_single_drain].
  - split; [by exists []|done].
Qed.

(** *** The claims on registration and on the single drain *)

(** C3. Registering a component on a registry that is a list [l] returns,
    and the registry becomes [l] followed by the new component: the head is
    the new component when [l] was empty and is unchanged otherwise, every
    object but the former tail is left as it was, and the former tail only
    gains the new component as its successor. *)
Theorem register_appends_at_tail n v i d disc st l :
  registry st = Some l ->
  exists st',
    ComponentBase_init n v i d disc st = Some st' /\
    registry st' = Some (l ++ [List.length (heap st)]) /\
    _components st' = Some (default (List.length (heap st)) (head l)) /\
    (forall c o, heap st !! c = Some o -> last l <> Some c -> heap st' !! c = Some o) /\
    (forall t o, last l = Some t -> heap st !! t = Some o ->
                 heap st' !! t = Some (set_next o (Some (List.length (heap st))))).
Proof.
  intros Hreg.
  destruct (ComponentBase_init_spec n v i d disc st l Hreg)
    as (st' & Hinit & Hheap & Hhd & _).
  destruct (ComponentBase_init_registry n v i d disc st l Hreg)
    as (st'' & Hinit' & Hreg' & _).
  rewrite Hinit in Hinit'. simplify_eq.
  exists st''. split_and!; try done.
  - intros c o Hc Hne. rewrite Hheap. destruct (last l) as [t|].
    + rewrite list_lookup_alter_ne by congruence. by apply lookup_app_l_Some.
    + by apply lookup_app_l_Some.
  - intros t o Hlast Ht. rewrite Hheap, Hlast, list_lookup_alter_eq.
    by erewrite lookup_app_l_Some.
Qed.

(** C1. In every state a run can reach there is at most one drain task,
    and there is one exactly when the drain pointer is set; a construction
    in such a state returns, it creates the task (and sets the pointer to the
    new component) only when the pointer is None, and with the pointer set
    it leaves pointer and tasks alone and only appends the component to the
    tail of the registry. *)
Theorem single_drain_process evs st :
  run evs initial = Some st ->
  List.length (drains st) <= 1 /\
  (drains st = [] <-> _init_queue_start st = None) /\
  forall n v i d disc,
  exists st' l,
    ComponentBase_init n v i d disc st = Some st' /\
    registry st = Some l /\
    registry st' = Some (l ++ [List.length (heap st)]) /\
    match _init_queue_start st with
    | None => drains st' = [DrainCreated] /\
              _init_queue_start st' = Some (List.length (heap st)) /\
              trace st' = trace st ++ [ObsRegister (List.length (heap st)); ObsCreateTask]
    | Some p => drains st' = drains st /\ _init_queue_start st' = Some p /\
                trace st' = trace st ++ [ObsRegister (List.length (heap st))]
    end.
Proof.
  intros Hrun. apply reachable_single_drain in Hrun as [[l Hl] Hsd].
  unfold single_drain in Hsd. split_and!.
  - destruct (_init_queue_start st); [destruct Hsd as [pc ->]|rewrite Hsd]; simpl; lia.
  - destruct (_init_queue_start st); [destruct Hsd as [pc ->]|]; split; done.
  - intros n v i d disc.
    destruct (ComponentBase_init_spec n v i d disc st l Hl)
      as (st' & Hinit & _ & _ & _ & _ & Hq).
    destruct (ComponentBase_init_registry n v i d disc st l Hl)
      as (st'' & Hinit' & Hreg' & _).
    rewrite Hinit in Hinit'. simplify_eq.
    exists st'', l. split_and!; try done.
    destruct (_init_queue_start st) as [p|]; [by destruct Hq as (? & ? & ?)|].
    destruct Hq as (? & -> & ?). by rewrite Hsd.
Qed.

(** *** First in, first out *)

Lemma hooks_app t1 t2 : hooks (t1 ++ t2) = hooks t1 ++ hooks t2.
Proof. apply omap_app. Qed.

Lemma registered_app t1 t2 : registered (t1 ++ t2) = registered t1 ++ registered t2.
Proof. apply omap_app. Qed.

Lemma hooks_publish ps : hooks (map ObsPublish ps) = [].
Proof. by induction ps. Qed.

Lemma registered_publish ps : registered (map ObsPublish ps) = [].
Proof. by induction ps. Qed.

Lemma hooks_init_network c o : hooks (_init_network c o) = [c].
Proof.
  unfold _init_network. destruct (MQTT_DISCOVERY_ENABLED && __discover o); [|done].
  change (hooks _) with (c :: hooks (map ObsPublish (_discovery o true))).
  by rewrite hooks_publish.
Qed.

Lemma registered_init_network c o : registered (_init_network c o) = [].
Proof.
  unfold _init_network. destruct (MQTT_DISCOVERY_ENABLED && __discover o); [|done].
  change (registered _) with (registered (map ObsPublish (_discovery o true))).
  by rewrite registered_publish.
Qed.

Lemma construct_fifo n v i d disc st st' :
  fifo_inv st -> ComponentBase_init n v i d disc st = Some st' -> fifo_inv st'.
Proof.
  intros (l & Hl & Hreg & Hd) Hstep.
  destruct (ComponentBase_init_spec n v i d disc st l Hl)
    as (st1 & H1 & _ & _ & Hch & _ & Hq).
  destruct (ComponentBase_init_registry n v i d disc st l Hl) as (st2 & H2 & Hl' & _).
  simplify_eq. set (self := List.length (heap st)) in *.
  exists (registered (trace st) ++ [self]). split; [exact Hl'|].
  destruct (drains st) as [|pc [|]] eqn:Hdr; [| |by destruct pc].
  - destruct Hd as [Hp Hh]. rewrite Hp in Hq. destruct Hq as (Hp' & -> & ->).
    rewrite registered_app, hooks_app, app_nil_r. split; [done|]. simpl.
    exists self, [self]. split_and!; [done| |by rewrite Hh].
    by eapply (Chain_suffix _ _ (registered (trace st)) self []).
  - assert (exists p, _init_queue_start st = Some p) as [p Hp].
    { destruct pc; [destruct Hd as (p & ? & ? & _)|destruct Hd as (? & ? & [p ?] & _)]; eauto. }
    rewrite Hp in Hq. destruct Hq as (Hp' & -> & ->).
    rewrite registered_app, hooks_app, app_nil_r. split; [done|].
    destruct pc as [|c].
    + destruct Hd as (p' & l2 & Hp2 & Hc2 & Heq).
      assert (p' = p) as -> by congruence.
      exists p, (l2 ++ [self]). split_and!; [done| |by rewrite Heq at 1; rewrite <- app_assoc].
      inversion Hc2 as [|? co l2' Hco Hl2]; subst.
      rewrite Heq, <- app_assoc in Hch. simpl in Hch. by eapply Chain_suffix.
    + destruct Hd as (hs & l2 & _ & Hh & Hc2 & Heq).
      exists hs, (l2 ++ [self]). split_and!; [by eauto|done| |by rewrite Heq, <- app_assoc].
      rewrite Heq, <- app_assoc in Hch. simpl in Hch. by eapply Chain_suffix.
Qed.

(** A section of the drain enters the next component of the registry, or
    ends the task when there is none. *)
Lemma drain_fifo st :
  fifo_inv st -> drains st <> [] ->
  exists st1,
    step (EvDrain 0) st = Some st1 /\ fifo_inv st1 /\
    registered (trace st1) = registered (trace st) /\
    List.length (hooks (trace st1)) + List.length (drains st)
    = S (List.length (hooks (trace st)) + List.length (drains st1)).
Proof.
  intros (l & Hl & Hreg & Hd) Hne. simpl.
  destruct (drains st) as [|pc [|]] eqn:Hdr; [done| |by destruct pc]. simpl.
  destruct pc as [|c].
  - destruct Hd as (p & l2 & Hp & Hc2 & Heq).
    inversion Hc2 as [|? o l2' Ho Hl2]; subst.
    unfold initNetworkProcess, drain_loop. rewrite Hp, Ho. simpl.
    eexists. split; [done|]. simpl. rewrite Hdr. simpl.
    rewrite registered_app, registered_init_network, app_nil_r.
    rewrite hooks_app, hooks_init_network, length_app. simpl.
    split_and!; [|done|lia].
    exists (registered (trace st)). split; [exact Hl|]. simpl.
    rewrite registered_app, registered_init_network, app_nil_r. split; [done|].
    exists (hooks (trace st)), l2'. rewrite hooks_app, hooks_init_network.
    split_and!; try done.
  - destruct Hd as (hs & l2 & Hp & Hh & Hc2 & Heq).
    inversion Hc2 as [|? co ? Hco Hl2]; subst.
    unfold initNetworkProcess, drain_loop. rewrite Hco. simpl.
    destruct (_next_component co) as [n|] eqn:Hnext;
      inversion Hl2 as [|? o l3 Ho Hl3]; subst.
    + rewrite Ho. simpl. eexists. split; [done|]. simpl. rewrite Hdr. simpl.
      rewrite registered_app, registered_init_network, app_nil_r.
      rewrite hooks_app, hooks_init_network, length_app. simpl.
      split_and!; [|done|lia].
      exists (registered (trace st)). split; [exact Hl|]. simpl.
      rewrite registered_app, registered_init_network, app_nil_r. split; [done|].
      exists (hs ++ [c]), l3. rewrite hooks_app, hooks_init_network, Hh.
      split_and!; try done. by rewrite Heq, <- app_assoc.
    + eexists. split; [done|]. simpl. rewrite Hdr. simpl.
      split_and!; [|done|lia].
      exists (registered (trace st)). split; [exact Hl|]. simpl. split; [done|].
      split; [done|]. by rewrite Hh, Heq.
Qed.

Lemma step_fifo ev st st' :
  is_construct_or_drain ev = true -> fifo_inv st -> step ev st = Some st' -> fifo_inv st'.
Proof.
  intros Hev Hinv Hstep. destruct ev as [n v i d disc|k| |]; try done.
  - by eapply construct_fifo.
  - assert (drains st <> [] /\ k = 0) as [Hne ->].
    { simpl in Hstep. destruct Hinv as (l & _ & _ & Hd).
      destruct (drains st) as [|pc [|]]; [done| |by destruct pc].
      by destruct k. }
    destruct (drain_fifo st Hinv Hne) as (st1 & H1 & Hinv1 & _). by simplify_eq.
Qed.

Lemma drain_progress n st :
  fifo_inv st ->
  List.length (registered (trace st)) + List.length (drains st)
  <= n + List.length (hooks (trace st)) ->
  exists k st',
    run (replicate k (EvDrain 0)) st = Some st' /\ fifo_inv st' /\ drains st' = [] /\
    registered (trace st') = registered (trace st).
Proof.
  revert st. induction n as [|n IH]; intros st Hinv Hm.
  - destruct (decide (drains st = [])) as [He|Hne]; [by exists 0, st|].
    exfalso. destruct Hinv as (l & _ & Hreg & Hd). rewrite Hreg in Hm.
    destruct (drains st) as [|[|c] [|]]; try done.
    + destruct Hd as (p & l2 & _ & Hc2 & ->). inversion Hc2; subst.
      rewrite length_app in Hm. simpl in Hm. lia.
    + destruct Hd as (hs & l2 & _ & Hh & _ & ->).
      rewrite Hh, !length_app in Hm. simpl in Hm. lia.
  - destruct (decide (drains st = [])) as [He|Hne]; [by exists 0, st|].
    destruct (drain_fifo st Hinv Hne) as (st1 & H1 & Hinv1 & Hreg1 & Hlen).
    destruct (IH st1 Hinv1) as (k & st' & Hrun & Hinv' & Hdr' & Hreg'); [rewrite Hreg1; lia|].
    exists (S k), st'. split_and!; try done; [|congruence].
    cbn [replicate run]. rewrite H1. exact Hrun.
Qed.

(** C2. In a run of constructions and drain sections, in any order, the
    hooks entered so far are the first components of the registration
    order, in that order; they are all of them once no drain task is left;
    and resuming the drain often enough enters the hook of every component
    registered, in the order of registration. *)
Theorem fifo_network_init evs st :
  forallb is_construct_or_drain evs = true ->
  run evs initial = Some st ->
  hooks (trace st) `prefix_of` registered (trace st) /\
  (drains st = [] -> hooks (trace st) = registered (trace st)) /\
  exists k st',
    run (replicate k (EvDrain 0)) st = Some st' /\ drains st' = [] /\
    hooks (trace st') = registered (trace st).
Proof.
  intros Hevs Hrun.
  assert (fifo_inv st) as Hinv.
  { eapply (run_invariant is_construct_or_drain fifo_inv); [|exact Hevs| |exact Hrun].
    - intros ev s s'. apply step_fifo.
    - by exists []. }
  split_and!.
  - destruct Hinv as (l & _ & Hreg & Hd). rewrite Hreg.
    destruct (drains st) as [|[|c] [|]]; try done.
    + destruct Hd as [_ ->]. done.
    + destruct Hd as (p & l2 & _ & _ & ->). by eexists.
    + destruct Hd as (hs & l2 & _ & -> & _ & ->). exists l2. by rewrite <- app_assoc.
  - intros He. destruct Hinv as (l & _ & Hreg & Hd). rewrite He in Hd.
    destruct Hd as [_ Hh]. congruence.
  - destruct (drain_progress (List.length (registered (trace st)) + List.length (drains st))
                             st Hinv ltac:(lia)) as (k & st' & Hk & Hinv' & Hdr' & Hreg').
    exists k, st'. split_and!; try done.
    destruct Hinv' as (l & _ & Hreg & Hd). rewrite Hdr' in Hd.
    destruct Hd as [_ Hh]. congruence.
Qed.

(** *** No object points out of the heap *)

Lemma unlink_closed f h head c p x h' head' b :
  heap_closed h -> unlink f h head c p x = Some (h', head', b) -> heap_closed h'.
Proof.
  intros Hcl. revert c p. induction f as [|f IH]; intros c p H; destruct c as [ci|];
    simpl in H; simplify_eq; try done.
  destruct (h !! ci) as [co|] eqn:Hci; simpl in H; [|done].
  destruct (Nat.eqb ci x); [|exact (IH _ _ H)].
  destruct p as [pi|]; [|by simplify_eq].
  destruct (h !! pi) as [po|] eqn:Hpi; simpl in H; simplify_eq.
  intros k ok n Hk Hn. rewrite length_insert.
  apply list_lookup_insert_Some in Hk as [(-> & <- & _)|[_ Hk]].
  - simpl in Hn. exact (Hcl _ _ _ Hci Hn).
  - exact (Hcl _ _ _ Hk Hn).
Qed.

Lemma construct_closed n v i d disc st st' :
  is_Some (registry st) -> heap_closed (heap st) ->
  ComponentBase_init n v i d disc st = Some st' -> heap_closed (heap st').
Proof.
  intros [l Hl] Hcl Hstep.
  destruct (ComponentBase_init_spec n v i d disc st l Hl) as (st1 & H1 & Hheap & _).
  simplify_eq. rewrite Hheap. clear Hheap Hstep.
  set (o := {| _next_component := None; COMPONENT_NAME := n; VERSION := v; _count := i;
               __discover := d; _discovery := disc |}).
  assert (heap_closed (heap st ++ [o])) as Hcl'.
  { intros k ok m Hk Hm. rewrite length_app. simpl.
    apply lookup_app_Some in Hk as [Hk|[_ Hk]].
    - pose proof (Hcl _ _ _ Hk Hm). lia.
    - apply list_lookup_singleton_Some in Hk as [_ <-]. done. }
  destruct (last l) as [t|]; [|done].
  intros k ok m Hk Hm. rewrite length_alter.
  destruct (decide (k = t)) as [->|Hne].
  - rewrite list_lookup_alter_eq in Hk.
    destruct ((heap st ++ [o]) !! t) as [to|]; simpl in Hk; simplify_eq.
    simpl in Hm. simplify_eq. rewrite length_app. simpl. lia.
  - rewrite list_lookup_alter_ne in Hk by done. exact (Hcl' _ _ _ Hk Hm).
Qed.

Lemma unlink_and_return_closed c st st' r :
  heap_closed (heap st) -> unlink_and_return c st = Some (st', r) -> heap_closed (heap st').
Proof.
  unfold unlink_and_return. intros Hcl H.
  destruct (unlink _ _ _ _ _ _) as [[[h head] found]|] eqn:Hu; simpl in H; simplify_eq.
  simpl. by eapply unlink_closed.
Qed.

Lemma step_closed ev st st' :
  is_Some (registry st) -> heap_closed (heap st) -> step ev st = Some st' ->
  heap_closed (heap st').
Proof.
  intros Hreg Hcl Hstep. destruct ev as [n v i d disc|k|arg|k]; simpl in Hstep.
  - by eapply construct_closed.
  - destruct (drains st !! k) as [pc|]; simpl in Hstep; [|done].
    destruct (initNetworkProcess pc st) as [[st1 r]|] eqn:Hd; simpl in Hstep; [|done].
    apply initNetworkProcess_spec in Hd as (Hh & _). simplify_eq. simpl. by rewrite Hh.
  - destruct (removeComponent_call arg st) as [st1 r] eqn:Hc.
    apply removeComponent_call_frame in Hc as (Hh & _).
    destruct r; simplify_eq; simpl; by rewrite Hh.
  - destruct (removals st !! k) as [pc|]; simpl in Hstep; [|done].
    destruct (removeComponent_resume pc st) as [[st1 r]|] eqn:Hr; simpl in Hstep; [|done].
    assert (heap_closed (heap st1)) as Hcl1.
    { destruct pc as [c|c|c]; simpl in Hr.
      - destruct (heap st !! c); simpl in Hr; by simplify_eq.
      - destruct (heap st !! c) as [o|]; simpl in Hr; [|done].
        destruct (MQTT_DISCOVERY_ENABLED && __discover o); [by simplify_eq|].
        by eapply unlink_and_return_closed.
      - by eapply unlink_and_return_closed. }
    destruct r; by simplify_eq.
Qed.

Lemma reachable_closed evs st :
  run evs initial = Some st -> is_Some (registry st) /\ heap_closed (heap st).
Proof.
  intros Hrun.
  eapply (run_invariant (fun _ => true)
                        (fun s => is_Some (registry s) /\ heap_closed (heap s)));
    [|apply forallb_all| |exact Hrun].
  - intros ev s s' _ [Hr Hs] Hstep. split; [by eapply step_registry|by eapply step_closed].
  - split; [by exists []|]. intros c o n Hc. done.
Qed.

(** *** A removal that nothing interleaves with *)

Lemma removeComponent_not_component arg st :
  is_component (resolve arg st) = false ->
  removeComponent arg st = Some (log st [ObsLogError not_a_component], VBool false).
Proof.
  unfold removeComponent, removeComponent_call. intros H.
  by destruct (resolve arg st).
Qed.

Lemma removeComponent_component arg st c o l :
  resolve arg st = VObj c -> heap st !! c = Some o -> registry st = Some l ->
  exists st',
    removeComponent arg st = Some (st', VNone) /\
    registry st' = Some (filter (fun y => y <> c) l) /\
    trace st' = trace st
                  ++ [ObsUnsubscribe c; removed_log c o]
                  ++ (if MQTT_DISCOVERY_ENABLED && __discover o
                      then ObsDiscovery c false :: map ObsPublish (_discovery o false)
                      else [])
                  ++ (if bool_decide (c ∈ l) then [ObsUnlink c] else []) /\
    _init_queue_start st' = _init_queue_start st /\ drains st' = drains st /\
    removals st' = removals st /\
    heap st' !! c = Some o /\
    (c ∉ l -> heap st' = heap st /\ _components st' = _components st).
Proof.
  intros Hres Hc Hl. unfold removeComponent, removeComponent_call. rewrite Hres.
  cbn [remove_run removeComponent_resume log heap]. rewrite Hc. cbn [mbind option_bind].
  cbn [remove_run removeComponent_resume log heap]. rewrite Hc. cbn [mbind option_bind].
  destruct (MQTT_DISCOVERY_ENABLED && __discover o).
  - cbn [mbind option_bind remove_run removeComponent_resume].
    set (st1 := log (log (log st _) _) _).
    destruct (unlink_and_return_spec c st1 l Hl)
      as (st' & Hu & Hreg & Hq & Hd & Hr & _ & Hhc & Ht & Hn).
    rewrite Hu. cbn [mbind option_bind remove_run].
    exists st'. split_and!; try done.
    + rewrite Ht. unfold st1. simpl. rewrite <- !app_assoc. done.
    + by rewrite Hhc.
  - set (st1 := log (log st _) _).
    destruct (unlink_and_return_spec c st1 l Hl)
      as (st' & Hu & Hreg & Hq & Hd & Hr & _ & Hhc & Ht & Hn).
    rewrite Hu. cbn [mbind option_bind remove_run].
    exists st'. split_and!; try done.
    + rewrite Ht. unfold st1. simpl. rewrite <- !app_assoc. done.
    + by rewrite Hhc.
Qed.

Lemma added_app st st' t : trace st' = trace st ++ t -> added st st' = t.
Proof. unfold added. intros ->. by rewrite drop_app_length. Qed.

Lemma errors_app t1 t2 : errors (t1 ++ t2) = errors t1 ++ errors t2.
Proof. apply omap_app. Qed.

Lemma publishes_app t1 t2 : publishes (t1 ++ t2) = publishes t1 ++ publishes t2.
Proof. apply omap_app. Qed.

Lemma errors_publish ps : errors (map ObsPublish ps) = [].
Proof. by induction ps. Qed.

Lemma publishes_publish ps : publishes (map ObsPublish ps) = ps.
Proof. induction ps as [|p ps IH]; [done|]. simpl. by f_equal. Qed.

Lemma deleteDiscovery_eq component_type name :
  _deleteDiscovery component_type name
  = Some [mkPublish (discovery_topic component_type name) EmptyString 1 true].
Proof. reflexivity. Qed.

(** *** The claims on removal *)

(** C4, as the code has it. A removal whose argument is, once a name is
    looked up, not a Component logs one error, returns False and changes
    neither heap nor registry. A removal of a Component that is not in the
    registry list logs no error: it runs the teardown of the component,
    returns None, which is falsy, and changes neither heap nor registry.
    Neither raises. *)
Theorem removeComponent_failure component st l :
  registry st = Some l ->
  (is_component (resolve component st) = false ->
   exists st',
     removeComponent component st = Some (st', VBool false) /\
     added st st' = [ObsLogError not_a_component] /\
     heap st' = heap st /\ _components st' = _components st /\ registry st' = Some l) /\
  (forall c o, resolve component st = VObj c -> heap st !! c = Some o -> c ∉ l ->
   exists st',
     removeComponent component st = Some (st', VNone) /\ truthy VNone = false /\
     added st st' = [ObsUnsubscribe c; removed_log c o]
                      ++ (if MQTT_DISCOVERY_ENABLED && __discover o
                          then ObsDiscovery c false :: map ObsPublish (_discovery o false)
                          else []) /\
     errors (added st st') = [] /\
     heap st' = heap st /\ _components st' = _components st /\ registry st' = Some l).
Proof.
  intros Hl. split.
  - intros Hn. rewrite (removeComponent_not_component _ _ Hn).
    eexists. split; [done|]. split_and!; try done.
    apply added_app. done.
  - intros c o Hres Hc Hnin.
    destruct (removeComponent_component _ _ _ _ _ Hres Hc Hl)
      as (st' & Hrm & Hreg & Ht & _ & _ & _ & _ & Hsame).
    destruct (Hsame Hnin) as [Hh Hhd].
    rewrite bool_decide_eq_false_2, app_nil_r in Ht by done.
    rewrite filter_ne_absent in Hreg by done.
    exists st'. rewrite (added_app _ _ _ Ht). split_and!; try done.
    destruct (MQTT_DISCOVERY_ENABLED && __discover o); [|done].
    change (errors _) with (errors (map ObsPublish (_discovery o false))).
    apply errors_publish.
Qed.

(** C5, as the code has it. Removing a registered component whose
    discovery is enabled (its own flag and the global one) returns and does,
    in this order: the unsubscription, the removal log, one call of the
    component's [_discovery(False)] with the publishes of that method, the
    unlinking. So the removal publishes what the method publishes: nothing
    for the method of [ComponentBase], and one retained empty message of
    QoS 1 on the discovery topic for a method that is one call of
    [_deleteDiscovery]. *)
Theorem removal_discovery_order c o st l :
  registry st = Some l -> heap st !! c = Some o -> c ∈ l ->
  MQTT_DISCOVERY_ENABLED && __discover o = true ->
  exists st',
    removeComponent (VObj c) st = Some (st', VNone) /\
    added st st' = [ObsUnsubscribe c; removed_log c o; ObsDiscovery c false]
                     ++ map ObsPublish (_discovery o false) ++ [ObsUnlink c] /\
    registry st' = Some (filter (fun y => y <> c) l) /\
    publishes (added st st') = _discovery o false /\
    (_discovery o false = ComponentBase_discovery false -> publishes (added st st') = []) /\
    (forall component_type name,
        Some (_discovery o false) = _deleteDiscovery component_type name ->
        publishes (added st st')
        = [mkPublish (discovery_topic component_type name) EmptyString 1 true]).
Proof.
  intros Hl Hc Hin Hen.
  destruct (removeComponent_component (VObj c) _ _ _ _ eq_refl Hc Hl)
    as (st' & Hrm & Hreg & Ht & _).
  rewrite Hen, bool_decide_eq_true_2 in Ht by done.
  exists st'. rewrite (added_app _ _ _ Ht).
  assert (publishes ([ObsUnsubscribe c; removed_log c o]
                       ++ (ObsDiscovery c false :: map ObsPublish (_discovery o false))
                       ++ [ObsUnlink c]) = _discovery o false) as Hp.
  { rewrite !publishes_app. simpl. by rewrite publishes_publish, app_nil_r. }
  split_and!; try done.
  - by rewrite Hp.
  - intros ct name Heq. rewrite Hp. rewrite deleteDiscovery_eq in Heq. by simplify_eq.
Qed.

(** *** The drain and a component that was unlinked *)

Lemma drain_from_await s x o :
  heap s !! x = Some o -> heap_closed (heap s) -> drains s = [DrainAwaitInit x] ->
  exists s',
    step (EvDrain 0) s = Some s' /\
    hooks (trace s') = hooks (trace s) ++ option_list (_next_component o) /\
    drains s' = option_list (DrainAwaitInit <$> _next_component o) /\
    heap s' = heap s.
Proof.
  intros Hx Hcl Hdr. simpl. rewrite Hdr. simpl. rewrite Hx. simpl.
  destruct (_next_component o) as [n|] eqn:Hn; simpl.
  - destruct (lookup_lt_is_Some_2 (heap s) n (Hcl _ _ _ Hx Hn)) as [on Hon].
    rewrite Hon. simpl. eexists. split; [done|]. simpl.
    rewrite hooks_app, hooks_init_network, Hdr. done.
  - eexists. split; [done|]. simpl. rewrite Hdr, app_nil_r. done.
Qed.

(** C10. Unlinking [x] in a reachable state returns and leaves the object
    [x], with its successor, the drain pointer and the drain task as they
    were. So a drain task that has not started and whose pointer is [x]
    still enters the hook of [x], and a task standing at [x] goes on to the
    successor [x] had before the unlinking: it enters that hook, or ends if
    there is none. *)
Theorem unlink_keeps_drain_target evs st x o :
  run evs initial = Some st -> heap st !! x = Some o ->
  exists st1,
    unlink_and_return x st = Some (st1, inr VNone) /\
    heap st1 !! x = Some o /\
    _init_queue_start st1 = _init_queue_start st /\ drains st1 = drains st /\
    (_init_queue_start st = Some x -> drains st = [DrainCreated] ->
     exists st2 st3,
       step (EvDrain 0) st1 = Some st2 /\
       hooks (trace st2) = hooks (trace st1) ++ [x] /\
       step (EvDrain 0) st2 = Some st3 /\
       hooks (trace st3) = hooks (trace st2) ++ option_list (_next_component o) /\
       drains st3 = option_list (DrainAwaitInit <$> _next_component o)) /\
    (drains st = [DrainAwaitInit x] ->
     exists st3,
       step (EvDrain 0) st1 = Some st3 /\
       hooks (trace st3) = hooks (trace st1) ++ option_list (_next_component o) /\
       drains st3 = option_list (DrainAwaitInit <$> _next_component o)).
Proof.
  intros Hrun Hx. apply reachable_closed in Hrun as [[l Hl] Hcl].
  destruct (unlink_and_return_spec x st l Hl)
    as (st1 & Hu & _ & Hq & Hd & _ & _ & Hhx & _).
  pose proof (unlink_and_return_closed _ _ _ _ Hcl Hu) as Hcl1.
  rewrite Hx in Hhx.
  exists st1. split_and!; try done.
  - intros Hp Hdr.
    assert (exists st2, step (EvDrain 0) st1 = Some st2 /\
                        hooks (trace st2) = hooks (trace st1) ++ [x] /\
                        heap st2 = heap st1 /\ drains st2 = [DrainAwaitInit x])
      as (st2 & Hs2 & Hh2 & Hheap2 & Hdr2).
    { simpl. rewrite Hd, Hdr. simpl. rewrite Hq, Hp. simpl. rewrite Hhx. simpl.
      eexists. split; [done|]. simpl.
      rewrite hooks_app, hooks_init_network, Hd, Hdr. done. }
    destruct (drain_from_await st2 x o) as (st3 & Hs3 & Hh3 & Hdr3 & _);
      [by rewrite Hheap2|by rewrite Hheap2|done|].
    by exists st2, st3.
  - intros Hdr.
    destruct (drain_from_await st1 x o) as (st3 & Hs3 & Hh3 & Hdr3 & _);
      [done|done|by rewrite Hd|].
    by exists st3.
Qed.

(** *** The claims on the composer *)

(** C7. The discovery topic of a component type and a unique name is the
    string "{discoveryPrefix}/{componentType}/{deviceID}/{uniqueName}/config":
    formatting never fails, and the result is this function of the two
    arguments, of the configured prefix and of the device identifier. *)
Theorem getDiscoveryTopic_format component_type name :
  _getDiscoveryTopic component_type name =
  Some (MQTT_DISCOVERY_PREFIX +:+ "/" +:+ component_type +:+ "/" +:+ getDeviceID
          +:+ "/" +:+ name +:+ "/config").
Proof.
  unfold _getDiscoveryTopic. cbn. reflexivity.
Qed.

(** C8. The message is the base template filled with: the state topic,
    replaced by its real topic when it is a device topic; the friendly name,
    which is the unique name when none is given; the device id and the
    unique name; the availability fragment, which is empty when [no_avail]
    is set and [_composeAvailability()] otherwise; the fragment of the
    component type; the device description. *)
Theorem composeDiscoveryMsg_contract component_topic name type_discovery friendly_name :
  let payload topic fname avail :=
    format DISCOVERY_BASE
           [topic; fname; getDeviceID; name; avail; type_discovery; getDeviceDiscovery] in
  let compose := _composeDiscoveryMsg component_topic name type_discovery in
  (forall no_avail, compose None no_avail = compose (Some name) no_avail) /\
  (forall f, f <> EmptyString -> py_or (Some f) name = f) /\
  (isDeviceTopic component_topic = VBool true ->
   compose friendly_name true
   = payload (getRealTopic component_topic) (py_or friendly_name name) EmptyString) /\
  (isDeviceTopic component_topic = VBool false ->
   compose friendly_name true
   = payload component_topic (py_or friendly_name name) EmptyString) /\
  compose friendly_name true
  = payload (if is_False (isDeviceTopic component_topic)
             then component_topic else getRealTopic component_topic)
            (py_or friendly_name name) EmptyString /\
  compose friendly_name false
  = _composeAvailability ≫=
      payload (if is_False (isDeviceTopic component_topic)
               then component_topic else getRealTopic component_topic)
              (py_or friendly_name name).
Proof.
  intros payload compose. unfold compose, _composeDiscoveryMsg. split_and!.
  - intros no_avail. simpl. destruct (String.eqb_spec name EmptyString) as [->|]; done.
  - intros f Hf. simpl. by destruct (String.eqb_spec f EmptyString).
  - intros ->. done.
  - intros ->. done.
  - done.
  - done.
Qed.

(** ** Further properties of the registry and of the drain *)

(** Successors are younger: every [_next_component] points to an object
    allocated later. *)
Definition heap_forward (h : list Component) : Prop :=
  forall c o n, h !! c = Some o -> _next_component o = Some n -> c < n.

(** Where the drain stands, against the hooks entered so far. *)
Definition drain_position (st : State) : Prop :=
  match _init_queue_start st, drains st with
  | None, [] => True
  | Some p, [DrainCreated] =>
      p < List.length (heap st) /\ Forall (fun h => h < p) (hooks (trace st))
  | Some _, [DrainAwaitInit c] =>
      c < List.length (heap st) /\ Forall (fun h => h <= c) (hooks (trace st))
  | _, _ => False
  end.

Definition drain_inv (st : State) : Prop :=
  is_Some (registry st) /\ heap_closed (heap st) /\ heap_forward (heap st) /\
  Forall (fun h => h < List.length (heap st)) (hooks (trace st)) /\
  StronglySorted lt (hooks (trace st)) /\
  drain_position st.

(** The registry against the order of construction. *)
Definition registry_inv (st : State) : Prop :=
  exists l, registry st = Some l /\
            l `sublist_of` seq 0 (List.length (heap st)) /\
            registered (trace st) = seq 0 (List.length (heap st)).

Lemma removeComponent_call_trace arg st st' r :
  removeComponent_call arg st = (st', r) ->
  exists t, trace st' = trace st ++ t /\ hooks t = [] /\ registered t = [].
Proof.
  unfold removeComponent_call. intros H.
  destruct (resolve arg st); simplify_eq; by eexists.
Qed.

Lemma removeComponent_resume_trace pc st st' r :
  is_Some (registry st) ->
  removeComponent_resume pc st = Some (st', r) ->
  exists t, trace st' = trace st ++ t /\ hooks t = [] /\ registered t = [].
Proof.
  intros [l Hl] Hr.
  assert (forall c st2, unlink_and_return c st = Some (st2, r) ->
                        exists t, trace st2 = trace st ++ t /\ hooks t = [] /\
                                  registered t = []) as Hu.
  { intros c st2 H2.
    destruct (unlink_and_return_spec c st l Hl) as (st3 & H3 & _ & _ & _ & _ & _ & _ & Ht & _).
    rewrite H3 in H2. simplify_eq. eexists. split; [exact Ht|]. by destruct (bool_decide _). }
  destruct pc as [c|c|c]; simpl in Hr.
  - destruct (heap st !! c); simpl in Hr; simplify_eq. by eexists.
  - destruct (heap st !! c) as [o|]; simpl in Hr; [|done].
    destruct (MQTT_DISCOVERY_ENABLED && __discover o); [|by eapply Hu].
    simplify_eq. eexists. split; [done|].
    change (hooks _) with (hooks (map ObsPublish (_discovery o false))).
    change (registered (_ :: ?t)) with (registered t).
    by rewrite hooks_publish, registered_publish.
  - by eapply Hu.
Qed.

(** What a step adds to the trace and to the heap. *)
Lemma step_trace ev st st' :
  is_Some (registry st) -> step ev st = Some st' ->
  exists t,
    trace st' = trace st ++ t /\
    match ev with
    | EvConstruct _ _ _ _ _ =>
        registered t = [List.length (heap st)] /\ hooks t = [] /\
        List.length (heap st') = S (List.length (heap st))
    | EvDrain _ =>
        registered t = [] /\ heap st' = heap st /\ _components st' = _components st
    | _ =>
        registered t = [] /\ hooks t = [] /\ List.length (heap st') = List.length (heap st)
    end.
Proof.
  intros [l Hl] Hstep. destruct ev as [n v i d disc|k|arg|k]; simpl in Hstep.
  - destruct (ComponentBase_init_spec n v i d disc st l Hl)
      as (st1 & H1 & _ & _ & _ & _ & Hq).
    destruct (ComponentBase_init_registry n v i d disc st l Hl) as (st2 & H2 & _ & Hlen).
    simplify_eq.
    destruct (_init_queue_start st); destruct Hq as (_ & _ & Ht); by eexists.
  - destruct (drains st !! k) as [pc|]; simpl in Hstep; [|done].
    destruct (initNetworkProcess pc st) as [[st1 r]|] eqn:Hd; simpl in Hstep; [|done].
    apply initNetworkProcess_spec in Hd as (Hh & Hc & _ & _ & Hd). simplify_eq. simpl.
    destruct (match pc with
              | DrainCreated => _init_queue_start st
              | DrainAwaitInit c0 => heap st !! c0 ≫= _next_component
              end) as [ci|].
    + destruct Hd as (o & _ & _ & _ & Ht). eexists. split; [exact Ht|].
      by rewrite registered_init_network.
    + destruct Hd as (_ & _ & Ht). exists []. by rewrite app_nil_r.
  - destruct (removeComponent_call arg st) as [st1 r] eqn:Hc.
    pose proof (removeComponent_call_frame _ _ _ _ Hc) as (Hh & _).
    apply removeComponent_call_trace in Hc as (t & Ht & Hht & Hrt).
    destruct r; simplify_eq; simpl.
    + exists t. by rewrite Hh.
    + exists (t ++ [ObsReturn p]). rewrite Ht, <- app_assoc, hooks_app, registered_app, Hht, Hrt, Hh.
      done.
  - destruct (removals st !! k) as [pc|]; simpl in Hstep; [|done].
    destruct (removeComponent_resume pc st) as [[st1 r]|] eqn:Hr; simpl in Hstep; [|done].
    pose proof (removeComponent_resume_frame _ _ _ _ (ex_intro _ l Hl) Hr) as (_ & _ & _ & Hlen).
    apply removeComponent_resume_trace in Hr as (t & Ht & Hht & Hrt); [|by eauto].
    destruct r; simplify_eq; simpl.
    + by exists t.
    + exists (t ++ [ObsReturn p]). rewrite Ht, <- app_assoc, hooks_app, registered_app, Hht, Hrt.
      done.
Qed.

Lemma step_registry_shape ev st st' l :
  registry st = Some l -> step ev st = Some st' ->
  exists l', registry st' = Some l' /\
             match ev with
             | EvConstruct _ _ _ _ _ => l' = l ++ [List.length (heap st)]
             | EvRemove _ => l' `sublist_of` l
             | _ => l' = l
             end.
Proof.
  intros Hl Hstep. destruct ev as [n v i d disc|k|arg|k]; simpl in Hstep.
  - destruct (ComponentBase_init_registry n v i d disc st l Hl) as (st1 & H1 & H2 & _).
    rewrite H1 in Hstep. simplify_eq. eauto.
  - destruct (drains st !! k) as [pc|]; simpl in Hstep; [|done].
    destruct (initNetworkProcess pc st) as [[st1 r]|] eqn:Hd; simpl in Hstep; [|done].
    apply initNetworkProcess_spec in Hd as (Hh & Hc & _).
    simplify_eq. exists l. split; [|done]. unfold registry in *. simpl. by rewrite Hh, Hc.
  - unfold removeComponent_call in Hstep.
    destruct (resolve arg st); simplify_eq; exists l; split; done.
  - destruct (removals st !! k) as [pc|]; simpl in Hstep; [|done].
    destruct (removeComponent_resume pc st) as [[st1 r]|] eqn:Hr; simpl in Hstep; [|done].
    assert (exists l', registry st1 = Some l' /\ l' `sublist_of` l) as (l' & Hl' & Hsub).
    { assert (forall c, unlink_and_return c st = Some (st1, r) ->
                        exists l', registry st1 = Some l' /\ l' `sublist_of` l) as Hu.
      { intros c H2. destruct (unlink_and_return_spec c st l Hl) as (st2 & H3 & Hreg2 & _).
        rewrite H3 in H2. simplify_eq. eexists. split; [exact Hreg2|]. apply sublist_filter. }
      destruct pc as [c|c|c]; simpl in Hr.
      - destruct (heap st !! c); simpl in Hr; simplify_eq. by exists l.
      - destruct (heap st !! c) as [o|]; simpl in Hr; [|done].
        destruct (MQTT_DISCOVERY_ENABLED && __discover o); [|by eapply Hu].
        simplify_eq. by exists l.
      - by eapply Hu. }
    destruct r; simplify_eq; exists l'; split; done.
Qed.

Lemma step_registry_inv ev st st' :
  registry_inv st -> step ev st = Some st' -> registry_inv st'.
Proof.
  intros (l & Hl & Hsub & Hreg) Hstep.
  destruct (step_registry_shape _ _ _ _ Hl Hstep) as (l' & Hl' & Hshape).
  destruct (step_trace _ _ _ (ex_intro _ l Hl) Hstep) as (t & Ht & Htr).
  exists l'. split; [exact Hl'|]. rewrite Ht, registered_app, Hreg.
  destruct ev as [n v i d disc|k|arg|k].
  - destruct Htr as (-> & _ & ->). subst l'. rewrite seq_S. simpl.
    split; [|done]. by apply sublist_app.
  - destruct Htr as (-> & -> & _). subst l'. by rewrite app_nil_r.
  - destruct Htr as (-> & _ & ->). subst l'. by rewrite app_nil_r.
  - destruct Htr as (-> & _ & ->). rewrite app_nil_r. split; [|done]. by etrans.
Qed.

(** X1. In every state a run can reach, the registry is a list without
    repetition of live objects, in the order in which they were constructed. *)
Theorem registry_integrity evs st :
  run evs initial = Some st ->
  exists l, registry st = Some l /\ NoDup l /\
            l `sublist_of` registered (trace st) /\
            (forall c, c ∈ l -> is_Some (heap st !! c)) /\
            registered (trace st) = seq 0 (List.length (heap st)).
Proof.
  intros Hrun.
  assert (registry_inv st) as (l & Hl & Hsub & Hreg).
  { eapply (run_invariant (fun _ => true) registry_inv); [|apply forallb_all| |exact Hrun].
    - intros ev s s' _. apply step_registry_inv.
    - exists []. done. }
  exists l. rewrite Hreg. split_and!; try done.
  - eapply sublist_NoDup; [apply NoDup_seq|done].
  - intros c Hc. apply lookup_lt_is_Some.
    apply registry_Chain in Hl as [Hch _]. by eapply Chain_valid.
Qed.

Lemma unlink_forward f h head c p x h' head' b :
  heap_forward h ->
  (forall pi, p = Some pi -> exists po, h !! pi = Some po /\ _next_component po = c) ->
  unlink f h head c p x = Some (h', head', b) -> heap_forward h'.
Proof.
  intros Hfw. revert c p. induction f as [|f IH]; intros c p Hp H; destruct c as [ci|];
    simpl in H; simplify_eq; try done.
  destruct (h !! ci) as [co|] eqn:Hci; simpl in H; [|done].
  destruct (Nat.eqb_spec ci x) as [->|Hne].
  - destruct p as [pi|]; [|by simplify_eq].
    destruct (Hp pi eq_refl) as (po & Hpo & Hnext).
    rewrite Hpo in H. simpl in H. simplify_eq.
    intros k ok n Hk Hn.
    apply list_lookup_insert_Some in Hk as [(-> & <- & _)|[_ Hk]].
    + simpl in Hn. pose proof (Hfw _ _ _ Hpo Hnext). pose proof (Hfw _ _ _ Hci Hn). lia.
    + exact (Hfw _ _ _ Hk Hn).
  - eapply (IH _ (Some ci)); [|exact H]. intros pi [= <-]. eauto.
Qed.

Lemma unlink_and_return_forward c st st' r :
  heap_forward (heap st) -> unlink_and_return c st = Some (st', r) -> heap_forward (heap st').
Proof.
  unfold unlink_and_return. intros Hfw H.
  destruct (unlink _ _ _ _ _ _) as [[[h head] found]|] eqn:Hu; simpl in H; simplify_eq.
  simpl. eapply unlink_forward; [exact Hfw| |exact Hu]. done.
Qed.

Lemma construct_forward n v i d disc st st' :
  is_Some (registry st) -> heap_forward (heap st) ->
  ComponentBase_init n v i d disc st = Some st' -> heap_forward (heap st').
Proof.
  intros [l Hl] Hfw Hstep.
  destruct (ComponentBase_init_spec n v i d disc st l Hl) as (st1 & H1 & Hheap & _).
  simplify_eq. rewrite Hheap. clear Hheap Hstep.
  set (o := {| _next_component := None; COMPONENT_NAME := n; VERSION := v; _count := i;
               __discover := d; _discovery := disc |}).
  assert (heap_forward (heap st ++ [o])) as Hfw'.
  { intros k ok m Hk Hm.
    apply lookup_app_Some in Hk as [Hk|[_ Hk]].
    - exact (Hfw _ _ _ Hk Hm).
    - apply list_lookup_singleton_Some in Hk as [_ <-]. done. }
  destruct (last l) as [t|] eqn:Hlast; [|done].
  assert (t < List.length (heap st)) as Ht.
  { apply registry_Chain in Hl as [Hch _]. eapply Chain_valid; [exact Hch|].
    apply last_Some in Hlast as [l' ->]. apply elem_of_app. right. by apply elem_of_cons; left. }
  intros k ok m Hk Hm.
  destruct (decide (k = t)) as [->|Hne].
  - rewrite list_lookup_alter_eq in Hk.
    destruct ((heap st ++ [o]) !! t) as [to|]; simpl in Hk; simplify_eq.
    simpl in Hm. simplify_eq. done.
  - rewrite list_lookup_alter_ne in Hk by done. exact (Hfw' _ _ _ Hk Hm).
Qed.

Lemma step_forward ev st st' :
  is_Some (registry st) -> heap_forward (heap st) -> step ev st = Some st' ->
  heap_forward (heap st').
Proof.
  intros Hreg Hfw Hstep. destruct ev as [n v i d disc|k|arg|k]; simpl in Hstep.
  - by eapply construct_forward.
  - destruct (drains st !! k) as [pc|]; simpl in Hstep; [|done].
    destruct (initNetworkProcess pc st) as [[st1 r]|] eqn:Hd; simpl in Hstep; [|done].
    apply initNetworkProcess_spec in Hd as (Hh & _). simplify_eq. simpl. by rewrite Hh.
  - destruct (removeComponent_call arg st) as [st1 r] eqn:Hc.
    apply removeComponent_call_frame in Hc as (Hh & _).
    destruct r; simplify_eq; simpl; by rewrite Hh.
  - destruct (removals st !! k) as [pc|]; simpl in Hstep; [|done].
    destruct (removeComponent_resume pc st) as [[st1 r]|] eqn:Hr; simpl in Hstep; [|done].
    assert (heap_forward (heap st1)) as Hfw1.
    { destruct pc as [c|c|c]; simpl in Hr.
      - destruct (heap st !! c); simpl in Hr; by simplify_eq.
      - destruct (heap st !! c) as [o|]; simpl in Hr; [|done].
        destruct (MQTT_DISCOVERY_ENABLED && __discover o); [by simplify_eq|].
        by eapply unlink_and_return_forward.
      - by eapply unlink_and_return_forward. }
    destruct r; by simplify_eq.
Qed.

Lemma drain_position_frame st st' :
  _init_queue_start st' = _init_queue_start st -> drains st' = drains st ->
  List.length (heap st) <= List.length (heap st') ->
  hooks (trace st') = hooks (trace st) ->
  drain_position st -> drain_position st'.
Proof.
  unfold drain_position. intros -> -> Hlen ->.
  destruct (_init_queue_start st), (drains st) as [|[|c] [|]]; try done.
  - intros [? ?]. split; [lia|done].
  - intros [? ?]. split; [lia|done].
Qed.

Lemma step_drain_inv ev st st' :
  drain_inv st -> step ev st = Some st' -> drain_inv st'.
Proof.
  intros (Hreg & Hcl & Hfw & Hbound & Hsort & Hpos) Hstep.
  pose proof (step_registry _ _ _ Hreg Hstep) as Hreg'.
  pose proof (step_closed _ _ _ Hreg Hcl Hstep) as Hcl'.
  pose proof (step_forward _ _ _ Hreg Hfw Hstep) as Hfw'.
  destruct (step_trace _ _ _ Hreg Hstep) as (t & Ht & Htr).
  split_and!; try done; destruct ev as [n v i d disc|k|arg|k].
  - destruct Htr as (_ & Hh & Hlen). rewrite Ht, hooks_app, Hh, app_nil_r, Hlen.
    eapply Forall_impl; [exact Hbound|]. simpl. lia.
  - destruct Htr as (_ & Hh & _). rewrite Hh.
    simpl in Hstep. destruct (drains st !! k) as [pc|] eqn:Hk; simpl in Hstep; [|done].
    destruct (initNetworkProcess pc st) as [[st1 r]|] eqn:Hd; simpl in Hstep; [|done].
    apply initNetworkProcess_spec in Hd as (_ & _ & _ & _ & Hd). simplify_eq. simpl in *.
    destruct (match pc with
              | DrainCreated => _init_queue_start st
              | DrainAwaitInit c0 => heap st !! c0 ≫= _next_component
              end) as [ci|].
    + destruct Hd as (o & Ho & _ & _ & Ht'). rewrite Ht', hooks_app, hooks_init_network.
      apply Forall_app. split; [done|]. apply Forall_singleton. by eapply lookup_lt_Some.
    + destruct Hd as (_ & _ & ->). done.
  - destruct Htr as (_ & Hh & Hlen). by rewrite Ht, hooks_app, Hh, app_nil_r, Hlen.
  - destruct Htr as (_ & Hh & Hlen). by rewrite Ht, hooks_app, Hh, app_nil_r, Hlen.
  - destruct Htr as (_ & Hh & _). by rewrite Ht, hooks_app, Hh, app_nil_r.
  - simpl in Hstep. destruct (drains st !! k) as [pc|] eqn:Hk; simpl in Hstep; [|done].
    destruct (initNetworkProcess pc st) as [[st1 r]|] eqn:Hd; simpl in Hstep; [|done].
    apply initNetworkProcess_spec in Hd as (_ & _ & Hdr & _ & Hd). simplify_eq. simpl in *.
    unfold drain_position in Hpos.
    destruct (_init_queue_start st) as [p|] eqn:Hp, (drains st) as [|pc0 [|]] eqn:Hdr0;
      try done; try (by destruct pc0).
    destruct k as [|k]; [|done]. simpl in Hk. simplify_eq.
    destruct pc as [|c].
    + destruct Hpos as [Hplt Hall]. destruct Hd as (o & Ho & _ & _ & Ht').
      rewrite Ht', hooks_app, hooks_init_network.
      apply StronglySorted_app_2; [|done|repeat constructor].
      intros x1 x2 Hx1 ->%list_elem_of_singleton.
      by eapply (proj1 (Forall_forall _ _) Hall).
    + destruct Hpos as [Hclt Hall].
      destruct (heap st !! c) as [co|] eqn:Hco; simpl in Hd; [|by destruct Hd as (_ & _ & ->)].
      destruct (_next_component co) as [nx|] eqn:Hnx; [|by destruct Hd as (_ & _ & ->)].
      destruct Hd as (o & Ho & _ & _ & Ht').
      rewrite Ht', hooks_app, hooks_init_network.
      apply StronglySorted_app_2; [|done|repeat constructor].
      intros x1 x2 Hx1 ->%list_elem_of_singleton.
      pose proof (proj1 (Forall_forall _ _) Hall _ Hx1). pose proof (Hfw _ _ _ Hco Hnx). simpl in *. lia.
  - destruct Htr as (_ & Hh & _). by rewrite Ht, hooks_app, Hh, app_nil_r.
  - destruct Htr as (_ & Hh & _). by rewrite Ht, hooks_app, Hh, app_nil_r.
  - destruct Htr as (_ & Hh & Hlen). destruct Hreg as [l Hl].
    destruct (ComponentBase_init_spec n v i d disc st l Hl)
      as (st1 & H1 & _ & _ & _ & _ & Hq).
    simpl in Hstep. simplify_eq. unfold drain_position in *.
    assert (hooks (trace st') = hooks (trace st)) as Hhk
        by (by rewrite Ht, hooks_app, Hh, app_nil_r).
    rewrite Hhk, Hlen.
    destruct (_init_queue_start st) as [p|].
    + destruct Hq as (-> & -> & _). destruct (drains st) as [|[|c] [|]]; try done.
      * destruct Hpos. split; [lia|done].
      * destruct Hpos. split; [lia|done].
    + destruct Hq as (-> & -> & _). destruct (drains st); [|done]. simpl.
      split; [lia|done].
  - simpl in Hstep. destruct (drains st !! k) as [pc|] eqn:Hk; simpl in Hstep; [|done].
    destruct (initNetworkProcess pc st) as [[st1 r]|] eqn:Hd; simpl in Hstep; [|done].
    apply initNetworkProcess_spec in Hd as (Hheap & _ & Hdr & _ & Hd). simplify_eq.
    unfold drain_position in *. simpl in *. rewrite Hheap, Hdr.
    destruct (_init_queue_start st) as [p|] eqn:Hp, (drains st) as [|pc0 [|]] eqn:Hdr0;
      try done; try (by destruct pc0).
    destruct k as [|k]; [|done]. simpl in Hk. simplify_eq.
    destruct pc as [|c].
    + destruct Hpos as [Hplt Hall]. destruct Hd as (o & Ho & -> & -> & Ht').
      rewrite Ht', hooks_app, hooks_init_network. simpl. split; [done|].
      apply Forall_app. split; [|by apply Forall_singleton].
      eapply Forall_impl; [exact Hall|]. simpl. lia.
    + destruct Hpos as [Hclt Hall].
      destruct (heap st !! c) as [co|] eqn:Hco; simpl in Hd;
        [|by destruct Hd as (-> & -> & _)].
      destruct (_next_component co) as [nx|] eqn:Hnx; [|by destruct Hd as (-> & -> & _)].
      destruct Hd as (o & Ho & -> & -> & Ht').
      rewrite Ht', hooks_app, hooks_init_network. simpl.
      split; [by eapply lookup_lt_Some|].
      pose proof (Hfw _ _ _ Hco Hnx).
      apply Forall_app. split; [|by apply Forall_singleton].
      eapply Forall_impl; [exact Hall|]. simpl. lia.
  - destruct Htr as (_ & Hh & Hlen). simpl in Hstep.
    destruct (removeComponent_call arg st) as [st1 r] eqn:Hc.
    apply removeComponent_call_frame in Hc as (_ & _ & Hq & Hdr & _).
    apply (drain_position_frame st st'); [| |by rewrite Hlen| |exact Hpos].
    + destruct r; simplify_eq; simpl; done.
    + destruct r; simplify_eq; simpl; done.
    + by rewrite Ht, hooks_app, Hh, app_nil_r.
  - destruct Htr as (_ & Hh & Hlen).
    simpl in Hstep. destruct (removals st !! k) as [pc|]; simpl in Hstep; [|done].
    destruct (removeComponent_resume pc st) as [[st1 r]|] eqn:Hr; simpl in Hstep; [|done].
    apply removeComponent_resume_frame in Hr as (Hq & Hdr & _); [|done].
    apply (drain_position_frame st st'); [| |by rewrite Hlen| |exact Hpos].
    + destruct r; simplify_eq; simpl; done.
    + destruct r; simplify_eq; simpl; done.
    + by rewrite Ht, hooks_app, Hh, app_nil_r.
Qed.

Lemma reachable_drain_inv evs st : run evs initial = Some st -> drain_inv st.
Proof.
  intros Hrun.
  eapply (run_invariant (fun _ => true) drain_inv); [|apply forallb_all| |exact Hrun].
  - intros ev s s' _. apply step_drain_inv.
  - split_and!.
    + by exists [].
    + intros c o n Hc. done.
    + intros c o n Hc. done.
    + constructor.
    + constructor.
    + done.
Qed.

Lemma increasing_sublist_seq (l : list nat) n :
  StronglySorted lt l -> Forall (fun x => x < n) l -> l `sublist_of` seq 0 n.
Proof.
  revert l. induction n as [|n IH]; intros l Hs Hb.
  - destruct l as [|x l]; [done|]. apply Forall_cons in Hb as [Hx _]. simpl in Hx. lia.
  - rewrite seq_S. simpl. destruct l as [|x l _] using rev_ind; [apply sublist_nil_l|].
    apply StronglySorted_app in Hs as (Hlt & Hs & _).
    apply Forall_app in Hb as [Hb Hx]. rewrite Forall_singleton in Hx.
    destruct (decide (x = n)) as [->|Hne].
    + apply sublist_app; [|done]. apply IH; [done|].
      apply Forall_forall. intros y Hy. apply (Hlt y n Hy). by apply list_elem_of_singleton.
    + apply sublist_inserts_r. apply IH.
      * apply StronglySorted_app_2; [done|done|repeat constructor].
      * apply Forall_app. split; [|apply Forall_singleton; simpl; lia].
        apply Forall_forall. intros y Hy.
        pose proof (Hlt y x Hy ltac:(by apply list_elem_of_singleton)). simpl. lia.
Qed.

(** X2. Whatever is constructed and removed, and however the sections of
    drains and removals interleave, the hooks entered so far are a
    subsequence of the construction order: no hook is entered twice, none is
    entered for an object that was not constructed, and a component is never
    entered before one constructed earlier that is entered at all. *)
Theorem hooks_follow_construction evs st :
  run evs initial = Some st ->
  hooks (trace st) `sublist_of` registered (trace st) /\ NoDup (hooks (trace st)).
Proof.
  intros Hrun.
  destruct (registry_integrity _ _ Hrun) as (l & _ & _ & _ & _ & Hreg).
  destruct (reachable_drain_inv _ _ Hrun) as (_ & _ & _ & Hb & Hs & _).
  assert (hooks (trace st) `sublist_of` registered (trace st)) as Hsub.
  { rewrite Hreg. by apply increasing_sublist_seq. }
  split; [done|]. eapply sublist_NoDup; [|exact Hsub]. rewrite Hreg. apply NoDup_seq.
Qed.

Lemma drain_await_ends n st c :
  heap_closed (heap st) -> heap_forward (heap st) ->
  drains st = [DrainAwaitInit c] -> c < List.length (heap st) ->
  List.length (heap st) - c <= n ->
  exists k st',
    run (replicate k (EvDrain 0)) st = Some st' /\ k <= n /\
    drains st' = [] /\ _init_queue_start st' = None /\
    heap st' = heap st /\ _components st' = _components st /\ removals st' = removals st.
Proof.
  revert st c. induction n as [|n IH]; intros st c Hcl Hfw Hdr Hc Hn; [lia|].
  destruct (lookup_lt_is_Some_2 _ _ Hc) as [co Hco].
  destruct (_next_component co) as [nx|] eqn:Hnx.
  - pose proof (Hcl _ _ _ Hco Hnx) as Hnxlt. pose proof (Hfw _ _ _ Hco Hnx) as Hlt.
    destruct (lookup_lt_is_Some_2 _ _ Hnxlt) as [o Ho].
    set (st1 := set_drains (log st (_init_network nx o)) [DrainAwaitInit nx]).
    assert (step (EvDrain 0) st = Some st1) as Hs.
    { simpl. rewrite Hdr. simpl. rewrite Hco. simpl. rewrite Hnx. simpl. rewrite Ho. simpl.
      by rewrite Hdr. }
    destruct (IH st1 nx) as (k & st' & Hrun & Hk & ? & ? & ? & ? & ?);
      [done|done|done|done|simpl; lia|].
    exists (S k), st'. cbn [replicate run]. rewrite Hs. split_and!; try done. lia.
  - exists 1, (set_drains (set_init_queue_start st None) []).
    cbn [replicate run]. simpl. rewrite Hdr. simpl. rewrite Hco. simpl. rewrite Hnx. simpl.
    rewrite Hdr. simpl. split_and!; try done. lia.
Qed.

(** X3. From every state a run can reach, resuming the drain task ends it
    after at most as many sections as there are objects, plus one: the pointer
    is reset to None, no task is left, and the registry is as it was. This
    also holds after removals, whose stale successors the drain may follow. *)
Theorem drain_always_ends evs st :
  run evs initial = Some st ->
  exists k st',
    run (replicate k (EvDrain 0)) st = Some st' /\ k <= S (List.length (heap st)) /\
    drains st' = [] /\ _init_queue_start st' = None /\
    heap st' = heap st /\ _components st' = _components st /\ removals st' = removals st.
Proof.
  intros Hrun.
  destruct (reachable_drain_inv _ _ Hrun) as (_ & Hcl & Hfw & _ & _ & Hpos).
  unfold drain_position in Hpos.
  destruct (_init_queue_start st) as [p|] eqn:Hp, (drains st) as [|[|c] [|]] eqn:Hdr;
    try done.
  - destruct Hpos as [Hplt _]. destruct (lookup_lt_is_Some_2 _ _ Hplt) as [o Ho].
    set (st1 := set_drains (log st (_init_network p o)) [DrainAwaitInit p]).
    assert (step (EvDrain 0) st = Some st1) as Hs.
    { simpl. rewrite Hdr. simpl. rewrite Hp. simpl. rewrite Ho. simpl. by rewrite Hdr. }
    destruct (drain_await_ends (List.length (heap st)) st1 p)
      as (k & st' & Hk & Hle & ? & ? & ? & ? & ?); [done|done|done|done|simpl; lia|].
    exists (S k), st'. cbn [replicate run]. rewrite Hs. split_and!; try done. lia.
  - destruct Hpos as [Hclt _].
    destruct (drain_await_ends (List.length (heap st)) st c)
      as (k & st' & Hk & Hle & ? & ? & ? & ? & ?); [done|done|done|done|lia|].
    exists k, st'. split_and!; try done. lia.
  - exists 0, st. split_and!; try done. lia.
Qed.

(** ** Further properties of removal *)

Lemma unlink_and_return_result c st st' r :
  unlink_and_return c st = Some (st', r) -> r = inr VNone.
Proof.
  unfold unlink_and_return. intros H.
  destruct (unlink _ _ _ _ _ _) as [[[h head] found]|]; simpl in H; by simplify_eq.
Qed.

(** X4. Whatever the argument and the state, a call of [removeComponent]
    that returns gives False or None, never a truthy value; it gives False
    exactly when the argument, after a name is looked up, is not a Component.
    So the result tells a caller nothing about whether a component was
    unlinked. *)
Theorem removeComponent_result component st st' v :
  removeComponent component st = Some (st', v) ->
  truthy v = false /\
  (v = VBool false \/ v = VNone) /\
  (v = VBool false <-> is_component (resolve component st) = false).
Proof.
  unfold removeComponent, removeComponent_call. intros H.
  destruct (resolve component st) as [|b|z|s|vs|c] eqn:Hres;
    try (simpl in H; simplify_eq; split_and!; [done|by left|done]).
  assert (v = VNone) as ->; [|split_and!; [done|by right|done]].
  cbn [remove_run removeComponent_resume] in H.
  destruct (heap (log st [ObsUnsubscribe c]) !! c) as [o|]; [|done].
  cbn [mbind option_bind remove_run removeComponent_resume] in H.
  destruct (heap (log (log st [ObsUnsubscribe c]) _) !! c) as [o'|]; [|done].
  cbn [mbind option_bind] in H.
  destruct (MQTT_DISCOVERY_ENABLED && __discover o').
  - cbn [mbind option_bind remove_run removeComponent_resume] in H.
    destruct (unlink_and_return c _) as [[st1 r]|] eqn:Hu; [|done].
    apply unlink_and_return_result in Hu as ->. cbn in H. by simplify_eq.
  - destruct (unlink_and_return c _) as [[st1 r]|] eqn:Hu; [|done].
    apply unlink_and_return_result in Hu as ->. cbn in H. by simplify_eq.
Qed.

(** X5. A removal that nothing interleaves with, of a live Component, on a
    registry that is a list: the call returns, the registry loses that
    component and keeps the others in their order, and removing the same
    component once more changes neither the registry nor the heap. *)
Theorem removeComponent_unlinks component st l c o :
  registry st = Some l -> resolve component st = VObj c -> heap st !! c = Some o ->
  exists st' l',
    removeComponent component st = Some (st', VNone) /\
    registry st' = Some l' /\ l' = filter (fun y => y <> c) l /\
    (c ∉ l') /\ (l' `sublist_of` l) /\
    (forall d, d ∈ l -> d <> c -> d ∈ l') /\
    exists st'',
      removeComponent (VObj c) st' = Some (st'', VNone) /\
      registry st'' = Some l' /\ heap st'' = heap st' /\ _components st'' = _components st'.
Proof.
  intros Hl Hres Hc.
  destruct (removeComponent_component _ _ _ _ _ Hres Hc Hl)
    as (st' & Hrm & Hreg & _ & _ & _ & _ & Hc' & _).
  assert (c ∉ filter (fun y => y <> c) l) as Hnin.
  { intros [Hne _]%list_elem_of_filter. by apply Hne. }
  exists st', (filter (fun y => y <> c) l). split_and!; try done.
  - apply sublist_filter.
  - intros d Hd Hne. by apply list_elem_of_filter.
  - destruct (removeComponent_component (VObj c) _ _ _ _ eq_refl Hc' Hreg)
      as (st'' & Hrm' & Hreg' & _ & _ & _ & _ & _ & Hsame).
    destruct (Hsame Hnin) as [Hh Hhd].
    rewrite filter_ne_absent in Hreg' by done.
    by exists st''.
Qed.

(** X6. Constructing a component and then removing it, with nothing in
    between, gives back the registry list there was; the drain pointer and
    task the construction may have set up stay, so an idle queue is left
    pointing at the removed component. *)
Theorem construct_then_remove n v i d disc st l :
  registry st = Some l ->
  exists st1 st2,
    ComponentBase_init n v i d disc st = Some st1 /\
    removeComponent (VObj (List.length (heap st))) st1 = Some (st2, VNone) /\
    registry st2 = Some l /\
    _init_queue_start st2 = _init_queue_start st1 /\ drains st2 = drains st1 /\
    (_init_queue_start st = None ->
     _init_queue_start st2 = Some (List.length (heap st)) /\
     List.length (heap st) ∉ l).
Proof.
  intros Hl.
  destruct (ComponentBase_init_spec n v i d disc st l Hl)
    as (st1 & H1 & _ & _ & Hch & _ & Hq).
  destruct (ComponentBase_init_registry n v i d disc st l Hl) as (st1' & H1' & Hreg1 & _).
  rewrite H1 in H1'. simplify_eq.
  set (self := List.length (heap st)) in *.
  assert (self ∉ l) as Hnin.
  { intros Hin. apply registry_Chain in Hl as [Hc _].
    pose proof (Chain_valid _ _ _ _ Hc Hin). unfold self in *. lia. }
  assert (is_Some (heap st1' !! self)) as [o Ho].
  { apply lookup_lt_is_Some. eapply Chain_valid; [exact Hch|].
    apply elem_of_app. right. by apply elem_of_cons; left. }
  destruct (removeComponent_component (VObj self) _ _ _ _ eq_refl Ho Hreg1)
    as (st2 & Hrm & Hreg2 & _ & Hp2 & Hd2 & _).
  rewrite (filter_ne_present self l []) in Hreg2 by (done || apply not_elem_of_nil).
  rewrite app_nil_r in Hreg2.
  exists st1', st2. split_and!; try done.
  intros Hp. rewrite Hp in Hq. destruct Hq as (Hq & _). by rewrite Hp2.
Qed.

(** ** Further properties of the composer *)

Lemma append_length (a b : string) :
  String.length (a +:+ b) = String.length a + String.length b.
Proof. induction a as [|c a IH]; simpl; [done|]. by rewrite IH. Qed.

Lemma append_inj_l (s x y : string) : s +:+ x = s +:+ y -> x = y.
Proof. induction s as [|c s IH]; simpl; [done|]. intros [= H]. auto. Qed.

Lemma append_inj_same_length (x y s t : string) :
  String.length x = String.length y -> x +:+ s = y +:+ t -> x = y.
Proof.
  revert y. induction x as [|c x IH]; intros [|d y] Hlen H; simpl in *; try done.
  injection H as -> H. f_equal. apply IH; [lia|done].
Qed.

Lemma append_inj_r (x y s : string) : x +:+ s = y +:+ s -> x = y.
Proof.
  intros H. eapply append_inj_same_length; [|exact H].
  apply (f_equal String.length) in H. rewrite !append_length in H. lia.
Qed.

Lemma getDiscoveryTopic_topic component_type name :
  _getDiscoveryTopic component_type name = Some (discovery_topic component_type name).
Proof. reflexivity. Qed.

(** X7. For a fixed prefix and device, the discovery topic tells apart the
    unique names of one component type, and the component types under one
    unique name. *)
Theorem getDiscoveryTopic_injective component_type name component_type' name' :
  (_getDiscoveryTopic component_type name = _getDiscoveryTopic component_type name' ->
   name = name') /\
  (_getDiscoveryTopic component_type name = _getDiscoveryTopic component_type' name ->
   component_type = component_type').
Proof.
  rewrite !getDiscoveryTopic_topic. unfold discovery_topic. split; intros [= H].
  - do 6 apply append_inj_l in H. by apply append_inj_r in H.
  - do 2 apply append_inj_l in H. by apply append_inj_r in H.
Qed.

(** X8. [_publishDiscovery] fails only when composing the message fails;
    otherwise it publishes one message, retained and with QoS 1, and
    [_deleteDiscovery] for the same component type and unique name publishes
    its empty message, retained and with QoS 1, on that same topic. *)
Theorem publish_and_delete_share_topic component_type component_topic unique_name
        discovery_type friendly_name :
  match _publishDiscovery component_type component_topic unique_name discovery_type
                          friendly_name with
  | None =>
      _composeDiscoveryMsg component_topic unique_name discovery_type friendly_name false
      = None
  | Some ps =>
      exists topic msg,
        ps = [mkPublish topic msg 1 true] /\
        _getDiscoveryTopic component_type unique_name = Some topic /\
        _composeDiscoveryMsg component_topic unique_name discovery_type friendly_name false
        = Some msg /\
        _deleteDiscovery component_type unique_name
        = Some [mkPublish topic EmptyString 1 true]
  end.
Proof.
  unfold _publishDiscovery, _deleteDiscovery. rewrite getDiscoveryTopic_topic. simpl.
  destruct (_composeDiscoveryMsg _ _ _ _ _) as [msg|]; simpl; [|done].
  by eexists _, _.
Qed.

End ComponentModule.

(** ** The friendly names of the PMS5003 sensor *)

(** C9. When the [friendly_name] argument is a list whose length is not 12,
    or is not a list, the constructor logs one warning, does not raise, and
    adds the twelve sensor types, in the order of [TYPES] and with their
    units, each under its own type name as friendly name. *)
Theorem friendly_name_fallback (VALUE_TEMPLATE_JSON_format : string -> string)
        (friendly_name : PyVal) :
  match friendly_name with VList l => List.length l <> 12 | _ => True end ->
  exists w sts,
    PMS5003.init_sensor_types VALUE_TEMPLATE_JSON_format friendly_name = ([w], Some sts) /\
    map PMS5003.sensor_type sts = PMS5003.TYPES /\
    map PMS5003.friendly_name sts = map VStr PMS5003.TYPES /\
    map PMS5003.unit_of_meas sts = PMS5003.UNITS.
Proof.
  intros H. unfold PMS5003.init_sensor_types.
  assert (exists w, PMS5003.check_friendly_name friendly_name = ([w], VNone)) as [w ->].
  { destruct friendly_name as [| | | |l|]; simpl; eauto.
    apply Nat.eqb_neq in H. rewrite H. simpl. eauto. }
  exists w. eexists. split; [reflexivity|]. by vm_compute.
Qed.

(** ** Further code of the PMS5003 component *)

Module PMS5003_reading.

(** One call of [self._setValue(tp, value, timeout=...)]. *)
Record SetValue := {
  set_type : string;
  set_value : PyVal;
  set_timeout : Z;
}.

(** Lines 102 to 105 of [__init__]: the callback is registered when
    [self._active_mode is False]. *)
Definition registers_callback (active_mode : PyVal) : bool := is_False active_mode.

(** [_saveVals]; [pms] gives [getattr(self.pms, tp)]. *)
Definition _saveVals (pms : string -> PyVal) (is_callback : bool) : list SetValue :=
  map (fun tp => {| set_type := tp; set_value := pms tp;
                    set_timeout := if is_callback then 0 else 10 |})
      PMS5003.TYPES.

(** [_read]: values are saved when [self._active_mode] is truthy. *)
Definition _read (active_mode : PyVal) (pms : string -> PyVal) : list SetValue :=
  if truthy active_mode then _saveVals pms false else [].

End PMS5003_reading.

(** X9. Whatever the [friendly_name] argument, the loop over [TYPES] does
    not raise and adds the twelve sensor types in order, each with its unit
    and with the discovery fragment of its unit and type. No warning is logged
    exactly when the argument is a list of length 12, and then the friendly
    names are the twelve entries of the list, by position; so the default,
    None, logs a warning too. *)
Theorem init_sensor_types_total (VALUE_TEMPLATE_JSON_format : string -> string)
        (friendly_name : PyVal) :
  exists ws sts,
    PMS5003.init_sensor_types VALUE_TEMPLATE_JSON_format friendly_name = (ws, Some sts) /\
    map PMS5003.sensor_type sts = PMS5003.TYPES /\
    map PMS5003.unit_of_meas sts = PMS5003.UNITS /\
    map PMS5003.value_template sts = map VALUE_TEMPLATE_JSON_format PMS5003.TYPES /\
    Forall (fun s => format PMS5003._DISCOVERY_PM [PMS5003.unit_of_meas s; PMS5003.sensor_type s]
                     = Some (PMS5003.discovery_type s)) sts /\
    (ws = [] <-> exists l, friendly_name = VList l /\ List.length l = 12) /\
    (forall l, friendly_name = VList l -> List.length l = 12 ->
               map PMS5003.friendly_name sts = l) /\
    (friendly_name = VNone -> List.length ws = 1).
Proof.
  unfold PMS5003.init_sensor_types.
  assert ((exists l, friendly_name = VList l /\ List.length l = 12) \/
          ~ (exists l, friendly_name = VList l /\ List.length l = 12)) as [(l & -> & Hlen)|Hno].
  { destruct friendly_name as [| | | |l|]; try (right; by intros (? & ? & ?)).
    destruct (Nat.eq_dec (List.length l) 12) as [Heq|Hne]; [by eauto|].
    right. intros (? & [= <-] & ?). done. }
  - do 13 (destruct l as [|? l]; try done).
    eexists _, _. split; [reflexivity|].
    split_and!; try reflexivity.
    + repeat (constructor; [reflexivity|]). constructor.
    + split; [by eauto|done].
    + by intros ? [= <-].
    + done.
  - assert (exists w, PMS5003.check_friendly_name friendly_name = ([w], VNone)) as [w ->].
    { destruct friendly_name as [| | | |l|]; simpl; eauto.
      destruct (Nat.eqb_spec (List.length l) 12) as [Heq|_]; simpl; eauto.
      exfalso. apply Hno. eauto. }
    eexists _, _. split; [reflexivity|].
    split_and!; try reflexivity.
    + repeat (constructor; [reflexivity|]). constructor.
    + split; [done|]. intros Hex. by destruct Hno.
    + intros l -> Hlen. exfalso. apply Hno. eauto.
Qed.

(** X10. The discovery fragment of a unit and a type: the four braces of
    the template come out as the two braces of the value template the
    home-automation side evaluates, around [value_json.] and the type. *)
Theorem discovery_fragment (unit tp : string) :
  format PMS5003._DISCOVERY_PM [unit; tp]
  = Some (PMS5003.dq +:+ "unit_of_meas" +:+ PMS5003.dq +:+ ":" +:+ PMS5003.dq +:+ unit
            +:+ PMS5003.dq +:+ "," +:+ PMS5003.dq +:+ "val_tpl" +:+ PMS5003.dq +:+ ":"
            +:+ PMS5003.dq +:+ "{{ value_json." +:+ tp +:+ " }}" +:+ PMS5003.dq +:+ ",").
Proof. reflexivity. Qed.

(** X11. How the readings are saved depends on [active_mode]. A truthy
    value: no callback is registered, and [_read] saves the twelve types in
    order, each with its attribute of the sensor object and the timeout 10.
    The value False: [_read] saves nothing, the callback is registered, and
    it saves the same twelve with the timeout 0. A falsy value other than
    False (None, 0, an empty string or list): no callback is registered and
    [_read] saves nothing, so no reading is ever saved. *)
Theorem reading_modes (active_mode : PyVal) (pms : string -> PyVal) :
  let saved timeout l :=
    map PMS5003_reading.set_type l = PMS5003.TYPES /\
    Forall (fun s => PMS5003_reading.set_value s = pms (PMS5003_reading.set_type s) /\
                     PMS5003_reading.set_timeout s = timeout) l in
  (truthy active_mode = true ->
   PMS5003_reading.registers_callback active_mode = false /\
   saved 10%Z (PMS5003_reading._read active_mode pms)) /\
  (active_mode = VBool false ->
   PMS5003_reading.registers_callback active_mode = true /\
   PMS5003_reading._read active_mode pms = [] /\
   saved 0%Z (PMS5003_reading._saveVals pms true)) /\
  (truthy active_mode = false -> active_mode <> VBool false ->
   PMS5003_reading.registers_callback active_mode = false /\
   PMS5003_reading._read active_mode pms = []).
Proof.
  intros saved. unfold PMS5003_reading._read. split_and!.
  - intros Ht. rewrite Ht. split; [by destruct active_mode as [|[]| | | |]|].
    split; [done|]. by repeat constructor.
  - intros ->. split_and!; try done. by repeat constructor.
  - intros Ht Hne. rewrite Ht. split; [|done].
    by destruct active_mode as [|[]| | | |].
Qed.

(** ** A device to run the model on *)

(** A name table that knows the first component as Button0. *)
Definition demo_getComponent (st : State) (s : string) : PyVal :=
  if String.eqb s "Button0" then
    match heap st !! 0 with Some _ => VObj 0 | None => VNone end
  else VNone.

Definition demo_getComponentName (c : oid) : string := "Button" +:+ pretty c.

Definition demo_run : list Event -> State -> option State :=
  run true demo_getComponent demo_getComponentName.

Definition demo_removeComponent : PyVal -> State -> option (State * PyVal) :=
  removeComponent true demo_getComponent demo_getComponentName.

(** A component that keeps the [_discovery] of [ComponentBase]. *)
Definition button : Event := EvConstruct "Button" "0.81" 0 true ComponentBase_discovery.

(** A component whose [_discovery(False)] is one call of [_deleteDiscovery]. *)
Definition switch_discovery (register : bool) : list Publish :=
  if register then []
  else default [] (_deleteDiscovery "homeassistant" "dev01" "switch" "Switch0").

Definition switch : Event := EvConstruct "Switch" "1.0" 0 true switch_discovery.

Definition remove_first : list Event :=
  [EvRemoveCall (VObj 0); EvRemove 0; EvRemove 0; EvRemove 0].

Definition one_button : State :=
  Eval vm_compute in default initial (demo_run [button] initial).

Definition two_buttons : State :=
  Eval vm_compute in default initial (demo_run [button; button] initial).

Definition three_buttons : State :=
  Eval vm_compute in
    default initial (demo_run [button; button; EvDrain 0; button; EvDrain 0] initial).

Definition one_switch : State :=
  Eval vm_compute in default initial (demo_run [switch] initial).

(** The first component was constructed and then removed. *)
Definition removed_button : State :=
  Eval vm_compute in default initial (demo_run (button :: remove_first) initial).

Definition first_button : Component :=
  {| _next_component := Some 1; COMPONENT_NAME := "Button"; VERSION := "0.81"; _count := 0;
     __discover := true; _discovery := ComponentBase_discovery |}.

Lemma single_drain_process_witness :
  demo_run [button; button] initial = Some two_buttons /\
  List.length (drains two_buttons) <= 1 /\
  (drains two_buttons = [] <-> _init_queue_start two_buttons = None).
Proof.
  split; [reflexivity|].
  pose proof (single_drain_process true demo_getComponent demo_getComponentName
                                   [button; button] two_buttons eq_refl) as (H1 & H2 & _).
  exact (conj H1 H2).
Defined.

Lemma fifo_network_init_witness :
  demo_run [button; button; EvDrain 0; button; EvDrain 0] initial = Some three_buttons /\
  hooks (trace three_buttons) `prefix_of` registered (trace three_buttons).
Proof.
  split; [reflexivity|].
  exact (proj1 (fifo_network_init true demo_getComponent demo_getComponentName
                                  [button; button; EvDrain 0; button; EvDrain 0]
                                  three_buttons eq_refl eq_refl)).
Defined.

Lemma register_appends_at_tail_witness :
  registry two_buttons = Some [0; 1] /\
  exists st', ComponentBase_init "Button" "0.81" 2 true ComponentBase_discovery two_buttons
              = Some st' /\
              registry st' = Some [0; 1; 2].
Proof.
  split; [reflexivity|].
  destruct (register_appends_at_tail "Button" "0.81" 2 true ComponentBase_discovery
                                     two_buttons [0; 1] eq_refl) as (st' & H1 & H2 & _).
  exists st'. split; [exact H1|exact H2].
Defined.

(** The removal of a component that was removed before: no error is
    logged, so the sentence of the specification fails there. *)
Lemma removal_failure_counterexample :
  demo_run (button :: remove_first) initial = Some removed_button /\
  registry removed_button = Some [] /\
  ~ spec_removal_failure true demo_getComponent demo_getComponentName (VObj 0) removed_button.
Proof.
  split; [reflexivity|]. split; [reflexivity|].
  intros H.
  destruct (H [] eq_refl) as (st' & v & Hrm & _ & Herr & _).
  { right. exists 0. split; [reflexivity|]. apply not_elem_of_nil. }
  vm_compute in Hrm. injection Hrm as <- <-. apply Herr. reflexivity.
Qed.

Lemma removeComponent_failure_witness :
  registry removed_button = Some [] /\
  exists st', demo_removeComponent (VObj 0) removed_button = Some (st', VNone) /\
              errors (added removed_button st') = [] /\
              registry st' = Some [].
Proof.
  split; [reflexivity|].
  destruct (removeComponent_failure true demo_getComponent demo_getComponentName
                                    (VObj 0) removed_button [] eq_refl) as [_ H].
  destruct (H 0 (set_next first_button None) eq_refl eq_refl (not_elem_of_nil 0))
    as (st' & H1 & _ & _ & H2 & _ & _ & H3).
  exists st'. split; [exact H1|]. split; [exact H2|exact H3].
Defined.

(** The removal of a component that keeps the [_discovery] of
    [ComponentBase]: nothing is published. *)
Lemma tombstone_counterexample :
  demo_run [button] initial = Some one_button /\
  ~ spec_tombstone true demo_getComponent demo_getComponentName 0 one_button.
Proof.
  split; [reflexivity|].
  intros H.
  destruct (H (set_next first_button None) eq_refl eq_refl)
    as (st' & v & topic & qos & pre & post & Hrm & Hadd & _).
  vm_compute in Hrm. injection Hrm as <- <-.
  apply (f_equal publishes) in Hadd. rewrite publishes_app in Hadd.
  change (publishes (added one_button _)) with (@nil Publish) in Hadd.
  by destruct (publishes pre).
Qed.

Lemma removal_discovery_order_witness :
  registry one_switch = Some [0] /\
  exists st', demo_removeComponent (VObj 0) one_switch = Some (st', VNone) /\
              publishes (added one_switch st')
              = [mkPublish "homeassistant/switch/dev01/Switch0/config" EmptyString 1 true].
Proof.
  split; [reflexivity|].
  destruct (removal_discovery_order
              true "homeassistant" "dev01" demo_getComponent demo_getComponentName 0
              {| _next_component := None; COMPONENT_NAME := "Switch"; VERSION := "1.0";
                 _count := 0; __discover := true; _discovery := switch_discovery |}
              one_switch [0] eq_refl eq_refl)
    as (st' & H1 & _ & _ & _ & _ & H2).
  { apply list_elem_of_singleton. reflexivity. }
  { reflexivity. }
  exists st'. split; [exact H1|]. exact (H2 "switch" "Switch0" eq_refl).
Defined.

(** C6, on the code. The removal of the registered component Button0 by
    its name looks the name up, runs the teardown, unlinks the component and
    then returns None, which is falsy, where the specification has it return
    success. *)
Example removeComponent_success_returns_None :
  registry one_button = Some [0] /\
  exists st',
    demo_removeComponent (VStr "Button0") one_button = Some (st', VNone) /\
    truthy VNone = false /\
    registry st' = Some [] /\
    added one_button st'
    = [ObsUnsubscribe 0;
       removed_log demo_getComponentName 0 (set_next first_button None);
       ObsDiscovery 0 false; ObsUnlink 0].
Proof.
  split; [reflexivity|]. eexists. split; [vm_compute; reflexivity|]. by vm_compute.
Qed.

Lemma unlink_keeps_drain_target_witness :
  demo_run [button; button] initial = Some two_buttons /\
  _init_queue_start two_buttons = Some 0 /\
  exists st1 st2 st3,
    unlink_and_return 0 two_buttons = Some (st1, inr VNone) /\
    registry st1 = Some [1] /\
    heap st1 !! 0 = Some first_button /\
    step true demo_getComponent demo_getComponentName (EvDrain 0) st1 = Some st2 /\
    step true demo_getComponent demo_getComponentName (EvDrain 0) st2 = Some st3 /\
    hooks (trace st3) = [0; 1].
Proof.
  split; [reflexivity|]. split; [reflexivity|].
  destruct (unlink_keeps_drain_target true demo_getComponent demo_getComponentName
                                      [button; button] two_buttons 0 first_button
                                      eq_refl eq_refl)
    as (st1 & H1 & H2 & _ & _ & H3 & _).
  destruct (H3 eq_refl eq_refl) as (st2 & st3 & H4 & H5 & H6 & H7 & _).
  exists st1, st2, st3.
  assert (registry st1 = Some [1] /\ hooks (trace st1) = []) as [Hr Hh].
  { vm_compute in H1. injection H1 as <-. split; reflexivity. }
  rewrite H7, H5, Hh. repeat split; assumption.
Defined.

Lemma composeDiscoveryMsg_contract_witness :
  let isDeviceTopic := fun t => VBool (String.prefix "./" t) in
  let getRealTopic := fun t => "home/dev01/" +:+ t in
  isDeviceTopic "./switch" = VBool true /\
  _composeDiscoveryMsg "home" "available" "dev01" "{}" "{!s}|{!s}|{!s}_{!s}|{!s}{!s}|{!s}"
                       "avty:{!s}/{!s}/{!s}," isDeviceTopic getRealTopic
                       "./switch" "Switch0" "switch," None true
  = Some "home/dev01/./switch|Switch0|dev01_Switch0|switch,|{}".
Proof.
  intros isDeviceTopic getRealTopic. split; [reflexivity|].
  pose proof (composeDiscoveryMsg_contract
                "home" "available" "dev01" "{}" "{!s}|{!s}|{!s}_{!s}|{!s}{!s}|{!s}"
                "avty:{!s}/{!s}/{!s}," isDeviceTopic getRealTopic
                "./switch" "Switch0" "switch," None) as (_ & _ & H & _).
  rewrite (H eq_refl). reflexivity.
Defined.

Lemma friendly_name_fallback_witness :
  exists w sts,
    PMS5003.init_sensor_types (fun tp => "{{ value_json." +:+ tp +:+ " }}")
                              (VList [VStr "dust"]) = ([w], Some sts) /\
    map PMS5003.friendly_name sts = map VStr PMS5003.TYPES.
Proof.
  destruct (friendly_name_fallback (fun tp => "{{ value_json." +:+ tp +:+ " }}")
                                   (VList [VStr "dust"]))
    as (w & sts & H1 & _ & H2 & _).
  { simpl. lia. }
  exists w, sts. split; [exact H1|exact H2].
Defined.

(** Why the first-in-first-out theorem is about constructions and drain
    sections only: when the component the drain starts at is removed before
    the task runs, a component constructed afterwards is never entered, and
    the drain ends without it. *)
Remark removal_can_starve_a_component :
  exists st,
    demo_run (button :: remove_first ++ [button; EvDrain 0; EvDrain 0]) initial = Some st /\
    drains st = [] /\ registry st = Some [1] /\
    registered (trace st) = [0; 1] /\ hooks (trace st) = [0].
Proof.
  eexists. split; [vm_compute; reflexivity|]. by vm_compute.
Qed.

(** ** The further properties on the device *)

Definition starving_run : list Event :=
  button :: remove_first ++ [button; EvDrain 0; button].

(** The first component was removed before the drain ran; two more were
    constructed. *)
Definition starved : State :=
  Eval vm_compute in default initial (demo_run starving_run initial).

Definition removed_by_name : State :=
  Eval vm_compute in
    default initial (fst <$> demo_removeComponent (VStr "Button0") one_button).

Lemma registry_integrity_witness :
  demo_run starving_run initial = Some starved /\
  exists l, registry starved = Some l /\ NoDup l /\
            l `sublist_of` registered (trace starved).
Proof.
  split; [reflexivity|].
  destruct (registry_integrity true demo_getComponent demo_getComponentName
                               starving_run starved eq_refl) as (l & H1 & H2 & H3 & _).
  exists l. split; [exact H1|]. split; [exact H2|exact H3].
Defined.

Lemma hooks_follow_construction_witness :
  demo_run starving_run initial = Some starved /\
  hooks (trace starved) = [0] /\ registered (trace starved) = [0; 1; 2] /\
  NoDup (hooks (trace starved)).
Proof.
  split; [reflexivity|]. split; [reflexivity|]. split; [reflexivity|].
  exact (proj2 (hooks_follow_construction true demo_getComponent demo_getComponentName
                                          starving_run starved eq_refl)).
Defined.

Lemma drain_always_ends_witness :
  demo_run starving_run initial = Some starved /\
  drains starved = [DrainAwaitInit 0] /\
  exists k st', demo_run (replicate k (EvDrain 0)) starved = Some st' /\
                drains st' = [] /\ _init_queue_start st' = None.
Proof.
  split; [reflexivity|]. split; [reflexivity|].
  destruct (drain_always_ends true demo_getComponent demo_getComponentName
                              starving_run starved eq_refl)
    as (k & st' & H1 & _ & H2 & H3 & _).
  exists k, st'. split; [exact H1|]. split; [exact H2|exact H3].
Defined.

Lemma removeComponent_result_witness :
  demo_removeComponent (VStr "Button0") one_button = Some (removed_by_name, VNone) /\
  registry removed_by_name = Some [] /\
  truthy VNone = false.
Proof.
  split; [reflexivity|]. split; [reflexivity|].
  exact (proj1 (removeComponent_result true demo_getComponent demo_getComponentName
                                       (VStr "Button0") one_button removed_by_name VNone
                                       eq_refl)).
Defined.

Lemma removeComponent_unlinks_witness :
  registry two_buttons = Some [0; 1] /\
  exists st', demo_removeComponent (VObj 0) two_buttons = Some (st', VNone) /\
              registry st' = Some [1].
Proof.
  split; [reflexivity|].
  destruct (removeComponent_unlinks true demo_getComponent demo_getComponentName
                                    (VObj 0) two_buttons [0; 1] 0 first_button
                                    eq_refl eq_refl eq_refl)
    as (st' & l' & H1 & H2 & -> & _).
  exists st'. split; [exact H1|exact H2].
Defined.

Lemma construct_then_remove_witness :
  registry two_buttons = Some [0; 1] /\
  exists st1 st2,
    ComponentBase_init "Button" "0.81" 2 true ComponentBase_discovery two_buttons = Some st1 /\
    demo_removeComponent (VObj 2) st1 = Some (st2, VNone) /\
    registry st2 = Some [0; 1].
Proof.
  split; [reflexivity|].
  destruct (construct_then_remove true demo_getComponent demo_getComponentName
                                  "Button" "0.81" 2 true ComponentBase_discovery
                                  two_buttons [0; 1] eq_refl)
    as (st1 & st2 & H1 & H2 & H3 & _).
  exists st1, st2. split; [exact H1|]. split; [exact H2|exact H3].
Defined.
